(** * Voting service: the vote handler, the ranking cache and the job worker

    A shallow embedding of [src/server.js] (the HTTP handler [vote], the
    helpers [getIndex] and [createStats], the read handlers [listVotes] and
    [listStats]) and of the queue worker that follows it in the same file
    ([votesQueue.process], [generateMail]).

    The LevelDB store is a finite map from the e-mail address to the stored
    JSON document, the cache is the JS array of country objects, and the
    outcome of every call that can reject ([db.get], [db.put],
    [extractPublicPart], [createJob(..).save()], [sendMail], [fetch]) is
    explicit. *)

From stdpp Require Import gmap strings list fin_maps sorting.
From Stdlib Require Import ZArith Lia.

Open Scope string_scope.
Open Scope list_scope.
Open Scope nat_scope.

(** ** JavaScript values used by the handler *)

(** A property that holds a string or is [undefined]. *)
Definition field := option string.

(** [ToBoolean] on a string-or-undefined value: [undefined] and the empty
    string are falsy, every other string is truthy. *)
Definition truthy (f : field) : bool :=
  match f with
  | Some s => negb (String.eqb s "")
  | None => false
  end.

(** [a === b] on string-or-undefined values. *)
Definition strict_eq (a b : field) : bool := bool_decide (a = b).

(** The vote document: the record stored under the e-mail key, the request
    payload and the job data are all this JS object.  [answers] holds the
    remaining free-form ballot fields. *)
Record Vote := {
  id : field;
  email : field;
  nationality : field;
  accept_terms : field;   (* 'I accept privacy policy and terms of service' *)
  over_18 : field;        (* 'I am over 18 years old' *)
  created : field;
  index : option nat;
  confirmed : field;
  answers : list (string * string)
}.

Global Instance Vote_eq_dec : EqDecision Vote.
Proof. solve_decision. Defined.

(** One element of the [cache] array: [{ code, vote: [...] }]. *)
Module Country.
Record t := { code : field; vote : list Vote }.
End Country.

Global Instance Country_eq_dec : EqDecision Country.t.
Proof. solve_decision. Defined.

(** The object built by [createStats]:
    [{ global: { count }, country: [{ code, count, vote }] }]. *)
Module Stats.
Record entry := { code : field; count : nat; vote : list Vote }.
Record t := { global_count : nat; country : list entry }.
End Stats.

(** Errors that reach a [catch] block or reject the handler. *)
Inductive Error :=
| NotFoundError     (* db.get on a missing key *)
| WriteError        (* db.put rejected *)
| TypeError         (* property access on undefined *)
| ProjectionError   (* extractPublicPart threw *)
| QueueError        (* createJob(..).save() rejected *)
| MailError         (* sendMail rejected *)
| FetchError.       (* fetch rejected *)

Global Instance Error_eq_dec : EqDecision Error.
Proof. solve_decision. Defined.

(** What the handler hands back to the framework. *)
Inductive Response :=
| Forbidden         (* Boom.forbidden() *)
| Conflict          (* Boom.conflict() *)
| NotAcceptable     (* Boom.notAcceptable() *)
| NoContent         (* return null *)
| Rejected (e : Error).   (* the async handler rejected *)

Global Instance Response_eq_dec : EqDecision Response.
Proof. solve_decision. Defined.

(** HTTP status of a response: Boom's codes, 204 for [null], and 500 for a
    rejection that is not a Boom error. *)
Definition statusCode (r : Response) : Z :=
  match r with
  | Forbidden => 403
  | Conflict => 409
  | NotAcceptable => 406
  | NoContent => 204
  | Rejected _ => 500
  end.

(** The module-level state of the server process together with the two
    external stores it writes to. *)
Record State := {
  db : gmap string Vote;        (* levelup store, key = e-mail *)
  cache : list Country.t;       (* let cache *)
  stats : Stats.t;              (* let stats *)
  queue : list Vote;            (* jobs saved in votesQueue *)
  log : list Error              (* console.log(err) *)
}.

(** What the outside world does during one request. *)
Record Env := {
  now : string;       (* new Date().toISOString() *)
  put_ok : bool;      (* db.put resolves *)
  save_ok : bool      (* createJob(vote).save() resolves *)
}.

Record Request := {
  credentials_email : string;   (* request.auth.credentials.email *)
  payload : Vote                (* request.payload *)
}.

(** ** Array helpers *)

(** [cache.find(c => c.code === n)] *)
Definition find_country (n : field) (cache : list Country.t) : option Country.t :=
  List.find (fun c => strict_eq (Country.code c) n) cache.

(** The comparator [(a, b) => b.vote.length - a.vote.length]. *)
Definition compareCount (a b : Country.t) : Z :=
  Z.of_nat (length (Country.vote b)) - Z.of_nat (length (Country.vote a)).

(** [Array.prototype.sort] with a comparator.  The sort is stable
    (ECMAScript 2019): an element stays in front of the later elements that
    the comparator does not put before it. *)
Fixpoint sort_insert {A} (cmp : A → A → Z) (x : A) (l : list A) : list A :=
  match l with
  | [] => [x]
  | y :: l' => if (cmp x y <=? 0)%Z then x :: y :: l' else y :: sort_insert cmp x l'
  end.

Definition array_sort {A} (cmp : A → A → Z) (l : list A) : list A :=
  foldr (sort_insert cmp) [] l.

(** [country.vote = [p, ...country.vote]] on the first country whose code is
    [n]; [None] when [find] returned [undefined] (a TypeError). *)
Fixpoint prepend_vote (n : field) (p : Vote) (cache : list Country.t)
  : option (list Country.t) :=
  match cache with
  | [] => None
  | c :: rest =>
      if strict_eq (Country.code c) n
      then Some ({| Country.code := Country.code c;
                    Country.vote := p :: Country.vote c |} :: rest)
      else (c ::.) <$> prepend_vote n p rest
  end.

(** ** createStats *)

Definition createStats (cache : list Country.t) : Stats.t :=
  {| Stats.global_count :=
       foldl (fun acc c => acc + length (Country.vote c)) 0 cache;
     Stats.country :=
       map (fun c => {| Stats.code := Country.code c;
                        Stats.count := length (Country.vote c);
                        Stats.vote := take 5 (Country.vote c) |}) cache |}.

(** ** getIndex

    Returns the index and the cache, to which an empty country has been
    pushed when the nationality was not there yet. *)
Definition getIndex (v : Vote) (cache : list Country.t) : nat * list Country.t :=
  match find_country (nationality v) cache with
  | Some country => (length (Country.vote country) + 1, cache)
  | None =>
      let country := {| Country.code := nationality v; Country.vote := [] |} in
      (length (Country.vote country) + 1, cache ++ [country])
  end.

(** [{ ...request.payload, created: ..., index: ... }] *)
Definition finalize (p : Vote) (iso : string) (i : nat) : Vote :=
  {| id := id p; email := email p; nationality := nationality p;
     accept_terms := accept_terms p; over_18 := over_18 p;
     created := Some iso; index := Some i;
     confirmed := confirmed p; answers := answers p |}.

(** The module [./common] is not part of the sources at hand; what the
    handler uses of it is an interface.  [None] stands for a call that
    throws. *)
Class Common := {
  extractPublicPart : Vote → option Vote
}.

Section Server.

Context {common : Common}.

(** The body of the first [try] block after [db.put] has resolved:
    lines 220-223. *)
Definition update_cache (v : Vote) (s : State) : State :=
  match extractPublicPart v with
  | None =>
      {| db := db s; cache := cache s; stats := stats s; queue := queue s;
         log := log s ++ [ProjectionError] |}
  | Some p =>
      match prepend_vote (nationality v) p (cache s) with
      | None =>
          {| db := db s; cache := cache s; stats := stats s; queue := queue s;
             log := log s ++ [TypeError] |}
      | Some cache1 =>
          let cache2 := array_sort compareCount cache1 in
          {| db := db s; cache := cache2; stats := createStats cache2;
             queue := queue s; log := log s |}
      end
  end.

(** The first [try]/[catch]: [db.put] and then the cache update. *)
Definition store_vote (e : Env) (key : string) (v : Vote) (s : State) : State :=
  if put_ok e
  then update_cache v
         {| db := <[key := v]> (db s); cache := cache s; stats := stats s;
            queue := queue s; log := log s |}
  else {| db := db s; cache := cache s; stats := stats s; queue := queue s;
          log := log s ++ [WriteError] |}.

(** The second [try]/[catch]: [votesQueue.createJob(vote).save()]. *)
Definition enqueue_job (e : Env) (v : Vote) (s : State) : State :=
  if save_ok e
  then {| db := db s; cache := cache s; stats := stats s;
          queue := queue s ++ [v]; log := log s |}
  else {| db := db s; cache := cache s; stats := stats s; queue := queue s;
          log := log s ++ [QueueError] |}.

(** The PUT handler. *)
Definition vote (e : Env) (r : Request) (s : State) : Response * State :=
  let email_ := credentials_email r in
  if negb (strict_eq (email (payload r)) (Some email_)) then (Forbidden, s)
  else
    match db s !! email_ with
    | None => (Rejected NotFoundError, s)
    | Some rec =>
        if negb (strict_eq (id (payload r)) (id rec)) || truthy (created rec)
        then (Conflict, s)
        else if negb (strict_eq (accept_terms (payload r)) (Some "on"))
                || negb (strict_eq (over_18 (payload r)) (Some "on"))
        then (NotAcceptable, s)
        else
          let '(i, cache1) := getIndex (payload r) (cache s) in
          let v := finalize (payload r) (now e) i in
          let s1 := {| db := db s; cache := cache1; stats := stats s;
                       queue := queue s; log := log s |} in
          (NoContent, enqueue_job e v (store_vote e email_ v s1))
    end.

(** GET /votes/{countryCode} *)
Definition listVotes (countryCode : string) (s : State) : option Country.t :=
  find_country (Some countryCode) (cache s).

(** GET /stats *)
Definition listStats (s : State) : Stats.t := stats s.

(** A sequence of requests handled one after the other. *)
Fixpoint run (tr : list (Env * Request)) (s : State) : State :=
  match tr with
  | [] => s
  | (e, r) :: tr' => run tr' (vote e r s).2
  end.

End Server.

(** ** The queue worker *)

(** The parts of [./config] the worker reads. *)
Record Config := {
  smtp_user : string;       (* config.smtp.auth.user *)
  backup_url : field;       (* config.backup.url *)
  backup_token : field      (* config.backup.token *)
}.

Record Mail := {
  mail_from : string;
  mail_to : field;
  mail_subject : string;
  mail_text : string
}.

(** The [fetch(url, { method, body, headers })] call of the worker. *)
Record HttpRequest := {
  http_url : string;
  http_method : string;
  http_body : string;
  http_content_type : string;
  http_authorization : string
}.

(** What the worker does to the outside world, in order. *)
Inductive Effect :=
| SendMail (m : Mail)           (* mailTransporter.sendMail(m) was called *)
| Fetch (q : HttpRequest)       (* fetch(..) was called *)
| ConsoleLog (e : Error).       (* console.log(err) *)

(** Whether the two remote calls of one job resolve. *)
Record WorkerEnv := {
  mail_ok : bool;
  fetch_ok : bool
}.

(** The content of a string-or-undefined value once it is known to be
    truthy. *)
Definition text_of (f : field) : string := default "" f.

Definition dquote : string := String (Ascii.ascii_of_nat 34) EmptyString.

(** The module [./emailText], which is not part of the sources at hand. *)
Class EmailText := {
  doneEmailText : Vote → string;
  confirmEmailText : Vote → string
}.

(** [JSON.stringify] on a vote document. *)
Class Json := {
  JSON_stringify : Vote → string
}.

Section Worker.

Context {emailText : EmailText} {json : Json}.

Variable config : Config.

Definition generateMail (v : Vote) : Mail :=
  let from := dquote +:+ "Alice in Government" +:+ dquote +:+ " <"
              +:+ smtp_user config +:+ ">" in
  if truthy (confirmed v)
  then {| mail_from := from; mail_to := email v;
          mail_subject := "Your vote was registered successfully";
          mail_text := doneEmailText v |}
  else {| mail_from := from; mail_to := email v;
          mail_subject := "Please confirm your vote";
          mail_text := confirmEmailText v |}.

(** The [// send email] block. *)
Definition send_email (w : WorkerEnv) (data : Vote) : list Effect :=
  SendMail (generateMail data)
    :: (if mail_ok w then [] else [ConsoleLog MailError]).

(** The guard of the [// backup vote] block. *)
Definition backup_guard (data : Vote) : bool :=
  truthy (backup_url config) && truthy (backup_token config)
    && truthy (confirmed data).

Definition backup_request (data : Vote) : HttpRequest :=
  {| http_url := text_of (backup_url config);
     http_method := "POST";
     http_body := JSON_stringify data;
     http_content_type := "application/json";
     http_authorization := "Bearer " +:+ text_of (backup_token config) |}.

(** The [// backup vote] block. *)
Definition backup_vote (w : WorkerEnv) (data : Vote) : list Effect :=
  if backup_guard data
  then Fetch (backup_request data)
         :: (if fetch_ok w then [] else [ConsoleLog FetchError])
  else [].

(** The callback given to [votesQueue.process]; [data] is [job.data]. *)
Definition process (w : WorkerEnv) (data : Vote) : list Effect :=
  send_email w data ++ backup_vote w data.

(** The remote calls among the effects, without the log lines. *)
Definition attempts (l : list Effect) : list Effect :=
  List.filter (fun x => match x with ConsoleLog _ => false | _ => true end) l.

End Worker.

(** ** The other handlers of the server *)

(** The parts of [./config] the handlers read. *)
Record ServerConfig := {
  serviceUrl : string;      (* config.serviceUrl *)
  appUrl : string;          (* config.appUrl *)
  admin : field             (* config.admin *)
}.

(** What the outside world does during one OAuth callback. *)
Record OauthEnv := {
  get_error : bool;         (* db.get rejects although the key may be there *)
  oauth_put_ok : bool;      (* db.put resolves *)
  cuid : string             (* cuid() *)
}.

(** The reply of the OAuth callback: the redirect, with the e-mail put in
    the session cookie on the way if any, or a rejection. *)
Inductive OauthResponse :=
| Redirect (location : string) (cookie : option string)
| OauthRejected (e : Error).

(** The document of the [catch] block: [{ id, email }]. *)
Definition new_registration (cfg : ServerConfig) (o : OauthEnv) (mail : string)
  : Vote :=
  {| id := Some (serviceUrl cfg +:+ "/" +:+ cuid o); email := Some mail;
     nationality := None; accept_terms := None; over_18 := None;
     created := None; index := None; confirmed := None; answers := [] |}.

(** GET /auth/google and GET /auth/facebook; [profile_email] is
    [request.auth.credentials.profile.email]. *)
Definition oauth (cfg : ServerConfig) (o : OauthEnv) (profile_email : field)
    (s : State) : OauthResponse * State :=
  let location := appUrl cfg +:+ "/voters" in
  if truthy profile_email
  then
    let email_ := text_of profile_email in
    match (if get_error o then None else db s !! email_) with
    | Some _ => (Redirect location (Some email_), s)
    | None =>
        if oauth_put_ok o
        then (Redirect location (Some email_),
              {| db := <[email_ := new_registration cfg o email_]> (db s);
                 cache := cache s; stats := stats s; queue := queue s;
                 log := log s |})
        else (OauthRejected WriteError, s)
    end
  else (Redirect location None, s).

(** The object returned by GET /. *)
Record Info := {
  facebook : string;        (* info.authProviders.facebook *)
  google : string;          (* info.authProviders.google *)
  info_vote : option Vote   (* info.vote *)
}.

Inductive EntryResponse :=
| EntryInfo (i : Info)
| EntryRejected (e : Error).

(** GET /; [credentials] is the e-mail of [request.auth.credentials], if
    the request carries a session. *)
Definition entrypoint (credentials : option string) (s : State) : EntryResponse :=
  match credentials with
  | None =>
      EntryInfo {| facebook := "/auth/facebook"; google := "/auth/google";
                   info_vote := None |}
  | Some email_ =>
      match db s !! email_ with
      | Some v =>
          EntryInfo {| facebook := "/auth/facebook"; google := "/auth/google";
                       info_vote := Some v |}
      | None => EntryRejected NotFoundError
      end
  end.

(** The order in which LevelDB iterates: by key. *)
Definition key_le (a b : string * Vote) : Prop := String.le a.1 b.1.

Global Instance key_le_dec : RelDecision key_le.
Proof. intros a b. unfold key_le. apply _. Defined.

(** [db.createValueStream()], read to its end. *)
Definition createValueStream (d : gmap string Vote) : list Vote :=
  (merge_sort key_le (map_to_list d)).*2.

Inductive DataResponse :=
| DataForbidden             (* Boom.forbidden() *)
| DataList (l : list Vote). (* the array of all values *)

(** GET /data *)
Definition listData (cfg : ServerConfig) (credentials_email : string)
    (s : State) : DataResponse :=
  if negb (strict_eq (Some credentials_email) (admin cfg)) then DataForbidden
  else DataList (createValueStream (db s)).

(** One state-changing request to the server. *)
Inductive Call :=
| PutVote (e : Env) (r : Request)
| OauthCallback (o : OauthEnv) (profile_email : field).

Section Calls.

Context {common : Common}.

Definition step (cfg : ServerConfig) (c : Call) (s : State) : State :=
  match c with
  | PutVote e r => (vote e r s).2
  | OauthCallback o profile_email => (oauth cfg o profile_email s).2
  end.

(** A sequence of state-changing requests handled one after the other. *)
Fixpoint exec (cfg : ServerConfig) (cs : list Call) (s : State) : State :=
  match cs with
  | [] => s
  | c :: cs' => exec cfg cs' (step cfg c s)
  end.

End Calls.

(** ** Vocabulary of the properties *)

(** A stored record counts as a cast vote when its [created] is truthy. *)
Definition finalized (v : Vote) : Prop := truthy (created v) = true.

Global Instance finalized_dec v : Decision (finalized v).
Proof. unfold finalized. apply _. Defined.

(** The finalized records of the store, in key order. *)
Definition finalized_records (d : gmap string Vote) : list Vote :=
  filter finalized (map_to_list d).*2.

(** The finalized records of one country. *)
Definition country_votes (d : gmap string Vote) (c : field) : list Vote :=
  filter (λ v, nationality v = c) (finalized_records d).

Definition country_indices (d : gmap string Vote) (c : field) : list (option nat) :=
  index <$> country_votes d c.

(** [country.vote.length] of the country [c] in the cache, 0 when the cache
    has no such country. *)
Definition count_of (c : field) (cache : list Country.t) : nat :=
  match find_country c cache with
  | Some k => length (Country.vote k)
  | None => 0
  end.

(** The sum of all [country.vote.length]. *)
Definition total_votes (cache : list Country.t) : nat :=
  sum_list_with (λ c, length (Country.vote c)) cache.

(** The cache agrees with the store: country codes are unique, and for
    every country the indices of its stored votes are 1 .. the length of its
    cached list. *)
Definition coherent (s : State) : Prop :=
  NoDup (Country.code <$> cache s) ∧
  ∀ c, country_indices (db s) c ≡ₚ Some <$> seq 1 (count_of c (cache s)).

(** The counts agree: the global count of the stats is the sum of their
    per-country counts and the sum of the cached list lengths, which is the
    number of finalized records in the store. *)
Definition tally_ok (s : State) : Prop :=
  Stats.global_count (stats s) = sum_list (Stats.count <$> Stats.country (stats s))
  ∧ Stats.global_count (stats s) = total_votes (cache s)
  ∧ total_votes (cache s) = length (finalized_records (db s)).

(** The request passes the identity guard, the conflict check and the
    consent check against the stored record [rec]. *)
Definition admissible (r : Request) (s : State) (rec : Vote) : Prop :=
  email (payload r) = Some (credentials_email r) ∧
  db s !! credentials_email r = Some rec ∧
  id (payload r) = id rec ∧
  truthy (created rec) = false ∧
  accept_terms (payload r) = Some "on" ∧
  over_18 (payload r) = Some "on".

(** [new Date().toISOString()] never yields the empty string. *)
Definition clock_ok (er : Env * Request) : Prop := now er.1 ≠ "".

(** Descending order of [country.vote.length]. *)
Definition count_ge (a b : Country.t) : Prop :=
  (length (Country.vote b) ≤ length (Country.vote a))%nat.

Definition to_entry (c : Country.t) : Stats.entry :=
  {| Stats.code := Country.code c;
     Stats.count := length (Country.vote c);
     Stats.vote := take 5 (Country.vote c) |}.

(** ** Sample data *)

(** The document the OAuth callback stores for a new identity:
    [{ id, email }]. *)
Definition registration (cuid mail : string) : Vote :=
  {| id := Some cuid; email := Some mail; nationality := None;
     accept_terms := None; over_18 := None; created := None; index := None;
     confirmed := None; answers := [] |}.

(** A ballot as the voting form sends it. *)
Definition ballot (cuid mail country : string) : Vote :=
  {| id := Some cuid; email := Some mail; nationality := Some country;
     accept_terms := Some "on"; over_18 := Some "on"; created := None;
     index := None; confirmed := None; answers := [("name", mail)] |}.

Definition put_request (cuid mail country : string) : Request :=
  {| credentials_email := mail; payload := ballot cuid mail country |}.

(** A projection that drops the identifying fields. *)
Definition sample_public (v : Vote) : option Vote :=
  Some {| id := None; email := None; nationality := nationality v;
          accept_terms := None; over_18 := None; created := created v;
          index := index v; confirmed := None; answers := [] |}.

Definition sample_common : Common := {| extractPublicPart := sample_public |}.

(** A projection that always throws. *)
Definition broken_common : Common := {| extractPublicPart := λ _, None |}.

Definition sample_text : EmailText :=
  {| doneEmailText := λ _, "Thank you for voting.";
     confirmEmailText := λ _, "Please follow the link to confirm." |}.

(** A serializer that keeps the two fields the examples look at. *)
Definition sample_json : Json :=
  {| JSON_stringify := λ v, text_of (email v) +:+ "/" +:+ text_of (created v) |}.

Definition all_ok (iso : string) : Env :=
  {| now := iso; put_ok := true; save_ok := true |}.

Definition put_fails (iso : string) : Env :=
  {| now := iso; put_ok := false; save_ok := true |}.

Definition save_fails (iso : string) : Env :=
  {| now := iso; put_ok := true; save_ok := false |}.

(** A freshly started server over a store that holds [d]. *)
Definition start (d : gmap string Vote) : State :=
  {| db := d; cache := []; stats := createStats []; queue := []; log := [] |}.

(** Six registered identities, nobody has voted. *)
Definition six_registered : gmap string Vote :=
  list_to_map
    [("a@x.org", registration "c1" "a@x.org");
     ("b@x.org", registration "c2" "b@x.org");
     ("c@x.org", registration "c3" "c@x.org");
     ("d@x.org", registration "c4" "d@x.org");
     ("e@x.org", registration "c5" "e@x.org");
     ("f@x.org", registration "c6" "f@x.org")].

(** Four accepted votes: A, B, B, A. *)
Definition four_votes : list (Env * Request) :=
  [(all_ok "2020-03-01T10:00:00.000Z", put_request "c1" "a@x.org" "A");
   (all_ok "2020-03-01T10:05:00.000Z", put_request "c2" "b@x.org" "B");
   (all_ok "2020-03-01T10:10:00.000Z", put_request "c3" "c@x.org" "B");
   (all_ok "2020-03-01T10:15:00.000Z", put_request "c4" "d@x.org" "A")].

(** Six accepted votes, all for FR. *)
Definition six_votes_FR : list (Env * Request) :=
  [(all_ok "2020-03-01T10:00:00.000Z", put_request "c1" "a@x.org" "FR");
   (all_ok "2020-03-01T10:05:00.000Z", put_request "c2" "b@x.org" "FR");
   (all_ok "2020-03-01T10:10:00.000Z", put_request "c3" "c@x.org" "FR");
   (all_ok "2020-03-01T10:15:00.000Z", put_request "c4" "d@x.org" "FR");
   (all_ok "2020-03-01T10:20:00.000Z", put_request "c5" "e@x.org" "FR");
   (all_ok "2020-03-01T10:25:00.000Z", put_request "c6" "f@x.org" "FR")].

(** The country codes of the cache, in the order of the array. *)
Definition codes (cache : list Country.t) : list field :=
  Country.code <$> cache.

(** Countries with equal counts stand in the order given by [order]. *)
Definition ties_follow (order : list field) (cache : list Country.t) : Prop :=
  ∀ j : nat,
    sublist (codes (filter (λ c, length (Country.vote c) = j) cache)) order.

Definition sample_config : Config :=
  {| smtp_user := "alice@x.org";
     backup_url := Some "https://backup.x.org/votes";
     backup_token := Some "s3cret" |}.

(** A form on which the age box is not ticked. *)
Definition unticked : Request :=
  {| credentials_email := "a@x.org";
     payload :=
       {| id := Some "c1"; email := Some "a@x.org";
          nationality := Some "FR"; accept_terms := Some "on";
          over_18 := None; created := None; index := None;
          confirmed := None; answers := [] |} |}.

(** The job saved for the first vote. *)
Definition first_job : Vote :=
  finalize (ballot "c1" "a@x.org" "FR") "2020-03-01T10:00:00.000Z" 1.

(** A record that carries a [confirmed] field. *)
Definition confirmed_job : Vote :=
  {| id := Some "c1"; email := Some "a@x.org"; nationality := Some "FR";
     accept_terms := Some "on"; over_18 := Some "on";
     created := Some "2020-03-01T10:00:00.000Z"; index := Some 1;
     confirmed := Some "2020-03-02T08:00:00.000Z"; answers := [] |}.

(** The state in which FR has one vote. *)
Definition one_vote_FR : State :=
  (vote (common := sample_common) (all_ok "2020-03-01T10:00:00.000Z")
     (put_request "c1" "a@x.org" "FR") (start six_registered)).2.

(** The state after the first three of the four votes. *)
Definition three_votes : State :=
  run (common := sample_common) (take 3 four_votes) (start six_registered).

(** The document built at lines 213-217 for an admissible request. *)
Definition new_vote (e : Env) (r : Request) (s : State) : Vote :=
  finalize (payload r) (now e) (getIndex (payload r) (cache s)).1.

(** The state on which the first [try] block starts: [getIndex] has run. *)
Definition indexed (r : Request) (s : State) : State :=
  {| db := db s; cache := (getIndex (payload r) (cache s)).2; stats := stats s;
     queue := queue s; log := log s |}.

(** The stats list exactly the countries of the cache that have a vote, in
    the order of the cache, each with its count and its first five votes. *)
Definition listed (s : State) : Prop :=
  filter (λ ent, Stats.count ent ≠ 0) (Stats.country (stats s))
  = to_entry <$> filter (λ c, Country.vote c ≠ []) (cache s).

(** A job as the handler builds it: both consents given, [created] and a
    positive [index] set, and addressed to an identity of the store [d]. *)
Definition job_ok (d : gmap string Vote) (j : Vote) : Prop :=
  accept_terms j = Some "on"
  ∧ over_18 j = Some "on"
  ∧ is_Some (created j)
  ∧ (∃ i, index j = Some i ∧ 1 ≤ i)
  ∧ (∃ k, email j = Some k ∧ is_Some (d !! k)).

(** Every record of the store carries the key it is stored under. *)
Definition keyed (d : gmap string Vote) : Prop :=
  ∀ k v, d !! k = Some v → email v = Some k.

(** The call is not an OAuth callback during which [db.get] rejects for
    another reason than a missing key. *)
Definition no_read_error (c : Call) : Prop :=
  match c with
  | PutVote _ _ => True
  | OauthCallback o _ => get_error o = false
  end.

(** More sample data. *)
Definition sample_server : ServerConfig :=
  {| serviceUrl := "https://vote.x.org"; appUrl := "https://app.x.org";
     admin := Some "admin@x.org" |}.

(** A callback during which the store works. *)
Definition oauth_ok (c : string) : OauthEnv :=
  {| get_error := false; oauth_put_ok := true; cuid := c |}.

(** A callback during which [db.get] rejects and [db.put] resolves. *)
Definition oauth_read_fails (c : string) : OauthEnv :=
  {| get_error := true; oauth_put_ok := true; cuid := c |}.

(** The form of a voter registered by [oauth_ok "ck1"] on [sample_server]. *)
Definition new_voter_request : Request :=
  put_request "https://vote.x.org/ck1" "g@x.org" "FR".

(** The queue is down and the projection may throw. *)
Definition queue_down (iso : string) : Env :=
  {| now := iso; put_ok := true; save_ok := false |}.

(** A callback for a registered voter, then that voter's form again. *)
Definition login_and_resubmit : list Call :=
  [OauthCallback (oauth_ok "ck2") (Some "a@x.org");
   PutVote (all_ok "2020-03-01T11:00:00.000Z") (put_request "c1" "a@x.org" "FR")].

(** A new voter logs in, and two registered voters vote. *)
Definition login_and_votes : list Call :=
  [OauthCallback (oauth_ok "ck1") (Some "g@x.org");
   PutVote (all_ok "2020-03-01T10:00:00.000Z") (put_request "c1" "a@x.org" "A");
   PutVote (put_fails "2020-03-01T10:05:00.000Z") (put_request "c2" "b@x.org" "B")].

(** A write that fails for FR, then a vote for B that goes through. *)
Definition failure_then_vote : list (Env * Request) :=
  [(put_fails "2020-03-01T10:00:00.000Z", put_request "c1" "a@x.org" "FR");
   (all_ok "2020-03-01T10:05:00.000Z", put_request "c2" "b@x.org" "B")].

(** [country.vote] of the country [n] in the cache, empty when the cache
    has no such country. *)
Definition votes_of (n : field) (cache : list Country.t) : list Vote :=
  match find_country n cache with
  | Some c => Country.vote c
  | None => []
  end.

(** What an admissible request adds to the list of its country: the
    projection of the new record if the write succeeded and the projection
    did not throw, nothing otherwise. *)
Definition added `{Common} (e : Env) (r : Request) (s : State) : list Vote :=
  if put_ok e
  then match extractPublicPart (new_vote e r s) with
       | Some p => [p]
       | None => []
       end
  else [].

(** * Properties of the handler *)

Section ServerFacts.

Context {common : Common}.

(** *** The stages of the handler touch only their own part of the state *)

Lemma db_update_cache v s : db (update_cache v s) = db s.
Proof.
  unfold update_cache.
  destruct (extractPublicPart v) as [p|]; [|done].
  by destruct (prepend_vote _ p _).
Qed.

Lemma queue_update_cache v s : queue (update_cache v s) = queue s.
Proof.
  unfold update_cache.
  destruct (extractPublicPart v) as [p|]; [|done].
  by destruct (prepend_vote _ p _).
Qed.

Lemma db_store_vote e k v s :
  db (store_vote e k v s) = if put_ok e then <[k := v]> (db s) else db s.
Proof.
  unfold store_vote. destruct (put_ok e); [|done].
  by rewrite db_update_cache.
Qed.

Lemma queue_store_vote e k v s : queue (store_vote e k v s) = queue s.
Proof.
  unfold store_vote. destruct (put_ok e); [|done].
  by rewrite queue_update_cache.
Qed.

Lemma db_enqueue_job e v s : db (enqueue_job e v s) = db s.
Proof. unfold enqueue_job. by destruct (save_ok e). Qed.

Lemma cache_enqueue_job e v s : cache (enqueue_job e v s) = cache s.
Proof. unfold enqueue_job. by destruct (save_ok e). Qed.

Lemma stats_enqueue_job e v s : stats (enqueue_job e v s) = stats s.
Proof. unfold enqueue_job. by destruct (save_ok e). Qed.

Lemma queue_enqueue_job e v s :
  queue (enqueue_job e v s) = if save_ok e then queue s ++ [v] else queue s.
Proof. unfold enqueue_job. by destruct (save_ok e). Qed.

(** *** The five ways through the handler *)

Lemma strict_eq_true a b : strict_eq a b = true ↔ a = b.
Proof. unfold strict_eq. by rewrite bool_decide_eq_true. Qed.

Lemma strict_eq_false a b : strict_eq a b = false ↔ a ≠ b.
Proof. unfold strict_eq. by rewrite bool_decide_eq_false. Qed.

Lemma vote_forbidden e r s :
  email (payload r) ≠ Some (credentials_email r) → vote e r s = (Forbidden, s).
Proof.
  intros H. apply strict_eq_false in H. unfold vote. by rewrite H.
Qed.

Lemma vote_not_found e r s :
  email (payload r) = Some (credentials_email r) →
  db s !! credentials_email r = None →
  vote e r s = (Rejected NotFoundError, s).
Proof.
  intros H Hd. apply strict_eq_true in H. unfold vote.
  by rewrite H, Hd.
Qed.

Lemma vote_conflict e r s rec :
  email (payload r) = Some (credentials_email r) →
  db s !! credentials_email r = Some rec →
  id (payload r) ≠ id rec ∨ truthy (created rec) = true →
  vote e r s = (Conflict, s).
Proof.
  intros H Hd Hc. apply strict_eq_true in H. unfold vote.
  rewrite H, Hd. simpl.
  destruct Hc as [Hc|Hc].
  - apply strict_eq_false in Hc. by rewrite Hc.
  - rewrite Hc. by rewrite orb_true_r.
Qed.

Lemma vote_no_consent e r s rec :
  email (payload r) = Some (credentials_email r) →
  db s !! credentials_email r = Some rec →
  id (payload r) = id rec →
  truthy (created rec) = false →
  accept_terms (payload r) ≠ Some "on" ∨ over_18 (payload r) ≠ Some "on" →
  vote e r s = (NotAcceptable, s).
Proof.
  intros H Hd Hi Hc Hn. apply strict_eq_true in H, Hi.
  unfold vote. rewrite H, Hd, Hi, Hc. simpl.
  destruct Hn as [Hn|Hn]; apply strict_eq_false in Hn; rewrite Hn; [done|].
  by rewrite orb_true_r.
Qed.

Lemma vote_admissible e r s rec :
  admissible r s rec →
  vote e r s =
    (NoContent,
     enqueue_job e (new_vote e r s)
       (store_vote e (credentials_email r) (new_vote e r s) (indexed r s))).
Proof.
  intros (H & Hd & Hi & Hc & Ha & Ho).
  apply strict_eq_true in H, Hi, Ha, Ho.
  unfold vote, new_vote, indexed. rewrite H, Hd, Hi, Hc, Ha, Ho. simpl.
  by destruct (getIndex (payload r) (cache s)).
Qed.

(** Every request falls in exactly one of the five cases. *)
Lemma vote_cases e r s :
  vote e r s = (Forbidden, s) ∧ email (payload r) ≠ Some (credentials_email r)
  ∨ vote e r s = (Rejected NotFoundError, s)
    ∧ email (payload r) = Some (credentials_email r)
    ∧ db s !! credentials_email r = None
  ∨ (∃ rec, vote e r s = (Conflict, s)
       ∧ email (payload r) = Some (credentials_email r)
       ∧ db s !! credentials_email r = Some rec
       ∧ (id (payload r) ≠ id rec ∨ truthy (created rec) = true))
  ∨ (∃ rec, vote e r s = (NotAcceptable, s)
       ∧ email (payload r) = Some (credentials_email r)
       ∧ db s !! credentials_email r = Some rec
       ∧ id (payload r) = id rec ∧ truthy (created rec) = false
       ∧ (accept_terms (payload r) ≠ Some "on"
          ∨ over_18 (payload r) ≠ Some "on"))
  ∨ (∃ rec, admissible r s rec).
Proof.
  destruct (decide (email (payload r) = Some (credentials_email r))) as [He|He];
    [|left; eauto using vote_forbidden].
  right.
  destruct (db s !! credentials_email r) as [rec|] eqn:Hd;
    [|left; eauto using vote_not_found].
  right.
  destruct (decide (id (payload r) = id rec)) as [Hi|Hi];
    [|left; exists rec; eauto 10 using vote_conflict].
  destruct (truthy (created rec)) eqn:Hc;
    [left; exists rec; eauto 10 using vote_conflict|].
  right.
  destruct (decide (accept_terms (payload r) = Some "on")) as [Ha|Ha];
    [|left; exists rec; eauto 10 using vote_no_consent].
  destruct (decide (over_18 (payload r) = Some "on")) as [Ho|Ho];
    [|left; exists rec; eauto 10 using vote_no_consent].
  right. exists rec. by repeat split.
Qed.

(** *** Rejections leave everything as it was *)

Lemma vote_rejected_unchanged e r s :
  (vote e r s).1 ≠ NoContent → (vote e r s).2 = s.
Proof.
  intros Hn.
  destruct (vote_cases e r s)
    as [[E _]|[[E _]|[(rec & E & _)|[(rec & E & _)|(rec & Ha)]]]];
    try (by rewrite E).
  rewrite (vote_admissible e r s rec Ha) in Hn. by destruct Hn.
Qed.

Lemma vote_success_admissible e r s :
  (vote e r s).1 = NoContent → ∃ rec, admissible r s rec.
Proof.
  intros Hn.
  destruct (vote_cases e r s)
    as [[E _]|[[E _]|[(rec & E & _)|[(rec & E & _)|(rec & Ha)]]]];
    try (by rewrite E in Hn).
  by exists rec.
Qed.

Lemma truthy_iso iso : iso ≠ "" → truthy (Some iso) = true.
Proof.
  intros Hne. simpl. apply negb_true_iff. by apply String.eqb_neq.
Qed.

(** C2: for a registered identity (whose payload carries the session's
    e-mail) the handler answers Conflict exactly when the payload's id
    differs from the stored id or the stored record has a truthy
    [created]; a Conflict leaves the store, the cache, the stats and the
    queue as they were; a wrong id on an unfinalized record is a Conflict;
    and after a request has been accepted and stored, the same request is
    a Conflict. *)
Theorem vote_conflict_iff e r s rec :
  email (payload r) = Some (credentials_email r) →
  db s !! credentials_email r = Some rec →
  ((vote e r s).1 = Conflict
     ↔ id (payload r) ≠ id rec ∨ truthy (created rec) = true)
  ∧ ((vote e r s).1 = Conflict → (vote e r s).2 = s)
  ∧ (truthy (created rec) = false → id (payload r) ≠ id rec →
       vote e r s = (Conflict, s))
  ∧ (put_ok e = true → now e ≠ "" → (vote e r s).1 = NoContent →
       ∀ e', vote e' r (vote e r s).2 = (Conflict, (vote e r s).2)).
Proof.
  intros He Hd. repeat split.
  - intros Hc.
    destruct (vote_cases e r s)
      as [[E _]|[[E _]|[(rec' & E & _ & Hd' & Hor)|[(rec' & E & _)|(rec' & Ha)]]]];
      try (by rewrite E in Hc).
    + rewrite Hd in Hd'. by simplify_eq.
    + by rewrite (vote_admissible e r s rec' Ha) in Hc.
  - intros Hor. by rewrite (vote_conflict e r s rec).
  - intros Hc. apply vote_rejected_unchanged. by rewrite Hc.
  - intros _ Hi. apply (vote_conflict e r s rec); auto.
  - intros Hp Hnow Hok e'.
    destruct (vote_success_admissible e r s Hok) as (rec' & Ha).
    rewrite (vote_admissible e r s rec' Ha). simpl.
    apply vote_conflict with (rec := new_vote e r s).
    + done.
    + rewrite db_enqueue_job, db_store_vote, Hp. simpl.
      by rewrite lookup_insert_eq.
    + right. by apply truthy_iso.
Qed.

(** C5: a payload in which a required consent field is not ['on'] is never
    accepted and changes nothing (no store write, no cache or stats
    change, no job); once the identity, registration and conflict checks
    that precede the consent check are passed, the answer is
    NotAcceptable. *)
Theorem vote_consent_required e r s :
  accept_terms (payload r) ≠ Some "on" ∨ over_18 (payload r) ≠ Some "on" →
  (vote e r s).2 = s
  ∧ (vote e r s).1 ≠ NoContent
  ∧ (∀ rec,
       email (payload r) = Some (credentials_email r) →
       db s !! credentials_email r = Some rec →
       id (payload r) = id rec →
       truthy (created rec) = false →
       vote e r s = (NotAcceptable, s)).
Proof.
  intros Hn.
  assert ((vote e r s).1 ≠ NoContent) as Hno.
  { intros Hok. destruct (vote_success_admissible e r s Hok)
      as (rec & _ & _ & _ & _ & Ha & Ho).
    destruct Hn; congruence. }
  split; [by apply vote_rejected_unchanged|].
  split; [done|].
  intros rec He Hd Hi Hc. by apply (vote_no_consent e r s rec).
Qed.

(** C8 (as amended): when the store has no record for the session's
    identity the handler accepts nothing and changes nothing; the
    Forbidden answer is given exactly when the payload's e-mail differs
    from the session's, and otherwise the rejection of [db.get]
    propagates out of the handler (status 500). *)
Theorem vote_unregistered e r s :
  db s !! credentials_email r = None →
  (vote e r s).2 = s
  ∧ (vote e r s).1 ≠ NoContent
  ∧ ((vote e r s).1 = Forbidden
       ↔ email (payload r) ≠ Some (credentials_email r))
  ∧ (email (payload r) = Some (credentials_email r) →
       (vote e r s).1 = Rejected NotFoundError
       ∧ statusCode (vote e r s).1 = 500%Z).
Proof.
  intros Hd.
  destruct (decide (email (payload r) = Some (credentials_email r))) as [He|He].
  - rewrite (vote_not_found e r s He Hd). simpl. repeat split; done.
  - rewrite (vote_forbidden e r s He). simpl. repeat split; done.
Qed.

(** *** What [getIndex] does to the cache *)

Lemma find_country_app c l1 l2 :
  find_country c (l1 ++ l2) =
    match find_country c l1 with
    | Some k => Some k
    | None => find_country c l2
    end.
Proof.
  unfold find_country. induction l1 as [|k l1 IH]; simpl; [done|].
  by destruct (strict_eq (Country.code k) c).
Qed.

Lemma count_of_getIndex c v l : count_of c (getIndex v l).2 = count_of c l.
Proof.
  unfold getIndex. destruct (find_country (nationality v) l) eqn:Hf; [done|].
  simpl. unfold count_of. rewrite find_country_app.
  destruct (find_country c l); [done|].
  unfold find_country. simpl.
  by destruct (strict_eq (nationality v) c).
Qed.

Lemma getIndex_fst v l : (getIndex v l).1 = count_of (nationality v) l + 1.
Proof.
  unfold getIndex, count_of.
  by destruct (find_country (nationality v) l).
Qed.

(** The two outcomes of [db.put] for an admissible request. *)
Lemma vote_write_rejected e r s rec :
  admissible r s rec →
  put_ok e = false →
  db (vote e r s).2 = db s
  ∧ stats (vote e r s).2 = stats s
  ∧ cache (vote e r s).2 = (getIndex (payload r) (cache s)).2
  ∧ log (vote e r s).2
    = log s ++ WriteError :: (if save_ok e then [] else [QueueError]).
Proof.
  intros Ha Hp. rewrite (vote_admissible e r s rec Ha). simpl.
  rewrite db_enqueue_job, stats_enqueue_job, cache_enqueue_job.
  unfold enqueue_job, store_vote. rewrite Hp.
  destruct (save_ok e); simpl; [done|]. by rewrite <- app_assoc.
Qed.

Lemma vote_write_resolved e r s rec :
  admissible r s rec →
  put_ok e = true →
  db (vote e r s).2 = <[credentials_email r := new_vote e r s]> (db s).
Proof.
  intros Ha Hp. rewrite (vote_admissible e r s rec Ha). simpl.
  by rewrite db_enqueue_job, db_store_vote, Hp.
Qed.

(** C3 (as amended): when [db.put] rejects for an admissible request, the
    error is caught and logged and the handler still answers 204; the
    store and the stats are unchanged, the cache differs at most by the
    empty country that [getIndex] pushed (every country keeps its vote
    count), and the job is still saved in the queue. *)
Theorem vote_put_failure e r s rec :
  admissible r s rec →
  put_ok e = false →
  (vote e r s).1 = NoContent
  ∧ statusCode (vote e r s).1 = 204%Z
  ∧ db (vote e r s).2 = db s
  ∧ stats (vote e r s).2 = stats s
  ∧ cache (vote e r s).2 = (getIndex (payload r) (cache s)).2
  ∧ (∀ c, count_of c (cache (vote e r s).2) = count_of c (cache s))
  ∧ WriteError ∈ log (vote e r s).2
  ∧ queue (vote e r s).2 =
      (if save_ok e then queue s ++ [new_vote e r s] else queue s).
Proof.
  intros Ha Hp.
  destruct (vote_write_rejected e r s rec Ha Hp) as (Hdb & Hst & Hca & Hlog).
  rewrite Hdb, Hst, Hca, Hlog.
  rewrite (vote_admissible e r s rec Ha). simpl.
  rewrite queue_enqueue_job, queue_store_vote.
  split_and!; try done.
  - intros c. apply count_of_getIndex.
  - rewrite elem_of_app, elem_of_cons. auto.
Qed.

(** C4: once [db.put] has resolved for an admissible request the handler
    answers 204 and the store holds the new record, whatever
    [extractPublicPart] and the queue do (the statement holds for every
    implementation of [extractPublicPart], throwing ones included, and for
    both outcomes of [save]). *)
Theorem vote_success_after_commit e r s rec :
  admissible r s rec →
  put_ok e = true →
  (vote e r s).1 = NoContent
  ∧ statusCode (vote e r s).1 = 204%Z
  ∧ db (vote e r s).2 = <[credentials_email r := new_vote e r s]> (db s).
Proof.
  intros Ha Hp. rewrite (vote_write_resolved e r s rec Ha Hp).
  by rewrite (vote_admissible e r s rec Ha).
Qed.

End ServerFacts.

(** * Properties of the cache operations *)

Section SortFacts.

Context {A : Type} (cmp : A → A → Z).

Lemma sort_insert_perm x l : sort_insert cmp x l ≡ₚ x :: l.
Proof.
  induction l as [|y l IH]; simpl; [done|].
  destruct (cmp x y <=? 0)%Z; [done|].
  rewrite IH. apply Permutation_swap.
Qed.

Lemma array_sort_perm l : array_sort cmp l ≡ₚ l.
Proof.
  induction l as [|x l IH]; simpl; [done|].
  rewrite sort_insert_perm. by rewrite IH.
Qed.

End SortFacts.

Section CacheFacts.

Implicit Types (l : list Country.t) (c k : Country.t) (n m : field).

Lemma compareCount_le a b : (compareCount a b <=? 0)%Z = true ↔ count_ge a b.
Proof. unfold compareCount, count_ge. rewrite Z.leb_le. lia. Qed.

Lemma sort_insert_sorted x l :
  StronglySorted count_ge l →
  StronglySorted count_ge (sort_insert compareCount x l).
Proof.
  induction 1 as [|y l Hs IH Hy]; simpl.
  - repeat constructor.
  - destruct (compareCount x y <=? 0)%Z eqn:Hc.
    + apply compareCount_le in Hc.
      constructor; [by constructor|].
      constructor; [done|].
      eapply Forall_impl; [exact Hy|].
      intros z Hz. unfold count_ge in *. lia.
    + constructor; [done|].
      rewrite sort_insert_perm. constructor; [|done].
      assert (¬ count_ge x y) as Hn.
      { intros Hg. apply compareCount_le in Hg. congruence. }
      unfold count_ge in *. lia.
Qed.

Lemma array_sort_sorted l : StronglySorted count_ge (array_sort compareCount l).
Proof.
  induction l as [|x l IH]; simpl; [constructor|].
  by apply sort_insert_sorted.
Qed.

(** Stability: the countries that have a given number of votes come out in
    the order in which they went in. *)
Lemma sort_insert_stable (j : nat) x l :
  filter (λ c, length (Country.vote c) = j) (sort_insert compareCount x l)
  = filter (λ c, length (Country.vote c) = j) (x :: l).
Proof.
  induction l as [|y l IH]; simpl; [done|].
  destruct (compareCount x y <=? 0)%Z eqn:Hc; [done|].
  assert (length (Country.vote x) ≠ length (Country.vote y)) as Hne.
  { intros Heq. apply not_true_iff_false in Hc. apply Hc.
    apply compareCount_le. unfold count_ge. lia. }
  rewrite !filter_cons. rewrite IH. rewrite filter_cons.
  repeat case_decide; try done; lia.
Qed.

Lemma array_sort_stable (j : nat) l :
  filter (λ c, length (Country.vote c) = j) (array_sort compareCount l)
  = filter (λ c, length (Country.vote c) = j) l.
Proof.
  induction l as [|x l IH]; simpl; [done|].
  rewrite sort_insert_stable. rewrite !filter_cons. by rewrite IH.
Qed.

(** *** [find] on a cache whose codes are unique *)

Lemma find_country_Some n l c :
  find_country n l = Some c → c ∈ l ∧ Country.code c = n.
Proof.
  unfold find_country. intros Hf. apply find_some in Hf as [Hin Heq].
  split; [by apply list_elem_of_In|].
  unfold strict_eq in Heq. by apply bool_decide_eq_true in Heq.
Qed.

Lemma find_country_unique n l c :
  NoDup (Country.code <$> l) → c ∈ l → Country.code c = n →
  find_country n l = Some c.
Proof.
  unfold find_country.
  induction l as [|k l IH]; intros Hnd Hin Hc; [by apply elem_of_nil in Hin|].
  simpl. rewrite fmap_cons in Hnd. apply NoDup_cons in Hnd as [Hk Hnd].
  unfold strict_eq. case_bool_decide as Hkn.
  - apply elem_of_cons in Hin as [->|Hin]; [done|].
    exfalso. apply Hk. rewrite Hkn, <- Hc.
    by apply list_elem_of_fmap_2.
  - apply elem_of_cons in Hin as [->|Hin]; [done|]. by apply IH.
Qed.

Lemma find_country_perm n l l' :
  NoDup (Country.code <$> l) → l ≡ₚ l' →
  find_country n l = find_country n l'.
Proof.
  intros Hnd Hp.
  assert (NoDup (Country.code <$> l')) as Hnd' by by rewrite <- Hp.
  destruct (find_country n l) as [c|] eqn:Hf.
  - apply find_country_Some in Hf as [Hin Hc].
    symmetry. apply find_country_unique; [done| |done]. by rewrite <- Hp.
  - destruct (find_country n l') as [c|] eqn:Hf'; [|done].
    apply find_country_Some in Hf' as [Hin Hc].
    rewrite <- Hp in Hin.
    by rewrite (find_country_unique n l c Hnd Hin Hc) in Hf.
Qed.

Lemma count_of_perm n l l' :
  NoDup (Country.code <$> l) → l ≡ₚ l' → count_of n l = count_of n l'.
Proof.
  intros Hnd Hp. unfold count_of. by rewrite (find_country_perm n l l').
Qed.

Lemma total_votes_perm l l' : l ≡ₚ l' → total_votes l = total_votes l'.
Proof. intros Hp. unfold total_votes. by rewrite Hp. Qed.

(** *** Prepending to the list of one country *)

Lemma prepend_vote_Some n p l c :
  find_country n l = Some c →
  ∃ l', prepend_vote n p l = Some l'
    ∧ Country.code <$> l' = Country.code <$> l
    ∧ find_country n l'
        = Some {| Country.code := n; Country.vote := p :: Country.vote c |}
    ∧ (∀ m, m ≠ n → find_country m l' = find_country m l)
    ∧ total_votes l' = S (total_votes l).
Proof.
  unfold find_country, total_votes.
  induction l as [|k l IH]; simpl; [done|].
  unfold strict_eq at 1 3. case_bool_decide as Hk.
  - intros [= ->]. eexists. split; [done|]. simpl.
    unfold strict_eq. rewrite bool_decide_eq_true_2 by done.
    repeat split; [by rewrite Hk|].
    intros m Hm. by rewrite bool_decide_eq_false_2 by congruence.
  - intros Hf. destruct (IH Hf) as (l' & -> & Hcodes & Hfind & Hother & Htot).
    eexists. split; [done|].
    rewrite !fmap_cons, Hcodes. cbn [find sum_list_with].
    unfold strict_eq at 1. rewrite bool_decide_eq_false_2 by done.
    rewrite Htot. repeat split; [done| |done].
    intros m Hm. destruct (strict_eq (Country.code k) m); [done|].
    by apply Hother.
Qed.

Lemma find_country_getIndex v l :
  ∃ c, find_country (nationality v) (getIndex v l).2 = Some c
    ∧ length (Country.vote c) = count_of (nationality v) l.
Proof.
  unfold getIndex, count_of.
  destruct (find_country (nationality v) l) as [c|] eqn:Hf; simpl.
  - exists c. by rewrite Hf.
  - rewrite find_country_app, Hf. unfold find_country. simpl.
    unfold strict_eq. rewrite bool_decide_eq_true_2 by done. by eexists.
Qed.

Lemma find_country_getIndex_length v l c :
  find_country (nationality v) (getIndex v l).2 = Some c →
  length (Country.vote c) = count_of (nationality v) l.
Proof.
  intros Hc. destruct (find_country_getIndex v l) as (c' & Hc' & Hlen).
  rewrite Hc in Hc'. by injection Hc' as <-.
Qed.

Lemma find_country_None n l :
  find_country n l = None → n ∉ Country.code <$> l.
Proof.
  unfold find_country. induction l as [|k l IH]; simpl.
  - intros _. apply not_elem_of_nil.
  - unfold strict_eq. case_bool_decide as Hk; [done|].
    intros Hf. rewrite not_elem_of_cons. split; [congruence|by apply IH].
Qed.

Lemma getIndex_NoDup v l :
  NoDup (Country.code <$> l) → NoDup (Country.code <$> (getIndex v l).2).
Proof.
  intros Hnd. unfold getIndex.
  destruct (find_country (nationality v) l) as [c|] eqn:Hf; simpl; [done|].
  rewrite fmap_app. apply NoDup_app. repeat split; [done| |].
  - intros x Hx. simpl. rewrite list_elem_of_singleton. intros ->.
    by apply find_country_None in Hf.
  - simpl. apply NoDup_singleton.
Qed.

Lemma total_votes_getIndex v l : total_votes (getIndex v l).2 = total_votes l.
Proof.
  unfold getIndex, total_votes.
  destruct (find_country (nationality v) l); simpl; [done|].
  rewrite sum_list_with_app. simpl. lia.
Qed.

(** *** createStats *)

Lemma createStats_global l :
  Stats.global_count (createStats l) = total_votes l.
Proof.
  unfold createStats, total_votes. simpl.
  assert (∀ a, foldl (λ acc c, acc + length (Country.vote c)) a l
               = a + sum_list_with (λ c, length (Country.vote c)) l) as Hg.
  { induction l as [|k l IH]; intros a; simpl; [lia|]. rewrite IH. lia. }
  by rewrite Hg.
Qed.

Lemma createStats_country l : Stats.country (createStats l) = to_entry <$> l.
Proof. done. Qed.

Lemma createStats_counts l :
  sum_list (Stats.count <$> Stats.country (createStats l)) = total_votes l.
Proof.
  rewrite createStats_country. unfold total_votes.
  induction l as [|k l IH]; [done|].
  rewrite !fmap_cons. cbn [sum_list_with]. by rewrite IH.
Qed.

End CacheFacts.

(** * Properties of the store *)

Section StoreFacts.

Implicit Types (d : gmap string Vote) (v old : Vote) (k : string).

(** Replacing an unfinalized record by a finalized one adds exactly that
    record to the finalized ones. *)
Lemma finalized_records_insert d k old v :
  d !! k = Some old → ¬ finalized old → finalized v →
  finalized_records (<[k := v]> d) ≡ₚ v :: finalized_records d.
Proof.
  intros Hk Hold Hv. unfold finalized_records.
  rewrite <- (insert_delete_eq d k v).
  rewrite map_to_list_insert by apply lookup_delete_eq.
  rewrite <- (map_to_list_delete d k old Hk).
  rewrite !fmap_cons. simpl.
  rewrite filter_cons_True by done.
  by rewrite (filter_cons_False _ old) by done.
Qed.

Lemma country_votes_insert d k old v c :
  d !! k = Some old → ¬ finalized old → finalized v →
  country_votes (<[k := v]> d) c
  ≡ₚ (if decide (nationality v = c) then [v] else []) ++ country_votes d c.
Proof.
  intros Hk Hold Hv. unfold country_votes.
  rewrite (finalized_records_insert d k old v Hk Hold Hv).
  rewrite filter_cons. by case_decide.
Qed.

Lemma finalized_finalize p iso i : iso ≠ "" → finalized (finalize p iso i).
Proof.
  intros Hne. unfold finalized. simpl.
  apply negb_true_iff. by apply String.eqb_neq.
Qed.

Lemma seq_snoc_perm (n : nat) :
  Some <$> seq 1 (S n) ≡ₚ Some (n + 1) :: (Some <$> seq 1 n).
Proof.
  rewrite seq_S, fmap_app. simpl.
  rewrite <- Permutation_cons_append.
  by replace (S n) with (n + 1) by lia.
Qed.

End StoreFacts.

(** * The aggregates after a vote *)

Section AggregateFacts.

Context {common : Common}.

(** The cache after an admissible request whose record was stored and
    projected: the list with the vote prepended, sorted. *)
Lemma vote_stored_cache e r s rec p :
  admissible r s rec →
  put_ok e = true →
  extractPublicPart (new_vote e r s) = Some p →
  ∃ c pre,
    find_country (nationality (payload r)) (getIndex (payload r) (cache s)).2
      = Some c
    ∧ length (Country.vote c) = count_of (nationality (payload r)) (cache s)
    ∧ prepend_vote (nationality (payload r)) p
        (getIndex (payload r) (cache s)).2 = Some pre
    ∧ cache (vote e r s).2 = array_sort compareCount pre
    ∧ stats (vote e r s).2 = createStats (array_sort compareCount pre)
    ∧ db (vote e r s).2 = <[credentials_email r := new_vote e r s]> (db s).
Proof.
  intros Ha Hp Hx.
  destruct (find_country_getIndex (payload r) (cache s)) as (c & Hc & Hlen).
  destruct (prepend_vote_Some _ p _ c Hc) as (pre & Hpre & _).
  exists c, pre. rewrite (vote_admissible e r s rec Ha). simpl.
  rewrite cache_enqueue_job, stats_enqueue_job, db_enqueue_job.
  unfold store_vote, update_cache. rewrite Hp. simpl.
  rewrite Hx. unfold indexed. simpl.
  change (nationality (new_vote e r s)) with (nationality (payload r)).
  rewrite Hpre. by simpl.
Qed.

(** C6 (as amended): the cache update prepends the projection to the
    country's list and does not truncate it, so the country returned by
    [find] (what [listVotes] serves) holds every vote; other countries are
    untouched; the stats snapshot holds, per country, the first five
    entries of the list, with the new projection in front. *)
Theorem update_cache_prepends v p s c :
  NoDup (Country.code <$> cache s) →
  extractPublicPart v = Some p →
  find_country (nationality v) (cache s) = Some c →
  find_country (nationality v) (cache (update_cache v s))
    = Some {| Country.code := nationality v;
              Country.vote := p :: Country.vote c |}
  ∧ (∀ m, m ≠ nationality v →
       find_country m (cache (update_cache v s)) = find_country m (cache s))
  ∧ Stats.country (stats (update_cache v s))
      = to_entry <$> cache (update_cache v s)
  ∧ Forall (λ ent, length (Stats.vote ent) ≤ 5)
      (Stats.country (stats (update_cache v s)))
  ∧ {| Stats.code := nationality v;
       Stats.count := S (length (Country.vote c));
       Stats.vote := p :: take 4 (Country.vote c) |}
      ∈ Stats.country (stats (update_cache v s)).
Proof.
  intros Hnd Hx Hc.
  destruct (prepend_vote_Some _ p _ c Hc)
    as (pre & Hpre & Hcodes & Hfind & Hother & _).
  unfold update_cache. rewrite Hx, Hpre. simpl.
  assert (NoDup (Country.code <$> pre)) as Hnd' by by rewrite Hcodes.
  assert (find_country (nationality v) (array_sort compareCount pre)
          = Some {| Country.code := nationality v;
                    Country.vote := p :: Country.vote c |}) as Hnew.
  { rewrite <- Hfind. symmetry. apply find_country_perm; [done|].
    symmetry. apply array_sort_perm. }
  split_and!.
  - exact Hnew.
  - intros m Hm. rewrite <- (Hother m Hm). symmetry.
    apply find_country_perm; [done|]. symmetry. apply array_sort_perm.
  - done.
  - apply Forall_fmap, Forall_forall. intros k _. simpl.
    rewrite length_take. lia.
  - apply find_country_Some in Hnew as [Hin _].
    apply (list_elem_of_fmap_2 to_entry) in Hin. exact Hin.
Qed.

(** C9 (as amended): after an admissible request whose record was stored
    and projected, the cache is the stable sort, by descending vote count,
    of the list in which the vote was prepended to its country: it is a
    permutation of that list, it is in descending order of count, and the
    countries that have the same count keep the relative order they had
    in that list; the stats hold the countries in the order of the
    cache. *)
Theorem vote_sorts_cache e r s rec p :
  admissible r s rec →
  put_ok e = true →
  extractPublicPart (new_vote e r s) = Some p →
  ∃ pre,
    prepend_vote (nationality (payload r)) p
      (getIndex (payload r) (cache s)).2 = Some pre
    ∧ cache (vote e r s).2 ≡ₚ pre
    ∧ StronglySorted count_ge (cache (vote e r s).2)
    ∧ (∀ j : nat,
         filter (λ c, length (Country.vote c) = j) (cache (vote e r s).2)
         = filter (λ c, length (Country.vote c) = j) pre)
    ∧ listStats (vote e r s).2 = createStats (cache (vote e r s).2)
    ∧ Stats.code <$> Stats.country (listStats (vote e r s).2)
        = Country.code <$> cache (vote e r s).2
    ∧ Stats.count <$> Stats.country (listStats (vote e r s).2)
        = (λ c, length (Country.vote c)) <$> cache (vote e r s).2.
Proof.
  intros Ha Hp Hx.
  destruct (vote_stored_cache e r s rec p Ha Hp Hx)
    as (c & pre & _ & _ & Hpre & Hcache & Hstats & _).
  exists pre. unfold listStats. rewrite Hcache, Hstats. split_and!.
  - done.
  - apply array_sort_perm.
  - apply array_sort_sorted.
  - intros j. apply array_sort_stable.
  - done.
  - rewrite createStats_country, <- list_fmap_compose. done.
  - rewrite createStats_country, <- list_fmap_compose. done.
Qed.

End AggregateFacts.

(** * Invariants of the sequential server *)

Section Invariants.

Context {common : Common}.

(** [extractPublicPart] returns a projection for every vote. *)
Hypothesis projection_total : ∀ v, is_Some (extractPublicPart v).

Lemma finalized_records_empty d :
  (∀ k v, d !! k = Some v → ¬ finalized v) → finalized_records d = [].
Proof.
  intros Hnone. unfold finalized_records.
  destruct (filter finalized (map_to_list d).*2) as [|v l] eqn:Hf; [done|].
  assert (v ∈ filter finalized (map_to_list d).*2) as Hin
    by (rewrite Hf; apply list_elem_of_here).
  apply list_elem_of_filter in Hin as [Hv Hin].
  apply list_elem_of_fmap in Hin as ([k v'] & -> & Hin).
  apply elem_of_map_to_list in Hin. by destruct (Hnone k v' Hin).
Qed.

(** A server started on a store in which nobody has voted. *)
Lemma start_coherent d :
  (∀ k v, d !! k = Some v → ¬ finalized v) → coherent (start d).
Proof.
  intros Hnone. split; simpl; [constructor|].
  intros c. unfold country_indices, country_votes.
  by rewrite (finalized_records_empty d Hnone).
Qed.

Lemma start_tally d :
  (∀ k v, d !! k = Some v → ¬ finalized v) → tally_ok (start d).
Proof.
  intros Hnone. unfold tally_ok. simpl.
  by rewrite (finalized_records_empty d Hnone).
Qed.

(** What an admissible request does when the write succeeds. *)
Lemma vote_stored e r s rec :
  admissible r s rec → put_ok e = true →
  ∃ c pre,
    find_country (nationality (payload r)) (getIndex (payload r) (cache s)).2
      = Some c
    ∧ Country.code <$> pre = Country.code <$> (getIndex (payload r) (cache s)).2
    ∧ find_country (nationality (payload r)) pre
        = Some {| Country.code := nationality (payload r);
                  Country.vote :=
                    default (new_vote e r s)
                      (extractPublicPart (new_vote e r s))
                    :: Country.vote c |}
    ∧ (∀ m, m ≠ nationality (payload r) →
         find_country m pre
         = find_country m (getIndex (payload r) (cache s)).2)
    ∧ total_votes pre = S (total_votes (cache s))
    ∧ cache (vote e r s).2 = array_sort compareCount pre
    ∧ stats (vote e r s).2 = createStats (array_sort compareCount pre)
    ∧ db (vote e r s).2 = <[credentials_email r := new_vote e r s]> (db s).
Proof.
  intros Ha Hp.
  destruct (projection_total (new_vote e r s)) as [p Hx].
  destruct (vote_stored_cache e r s rec p Ha Hp Hx)
    as (c & pre & Hc & _ & Hpre & Hcache & Hstats & Hdb).
  destruct (prepend_vote_Some _ p _ c Hc)
    as (pre' & Hpre' & Hcodes & Hfind & Hother & Htot).
  rewrite Hpre in Hpre'. injection Hpre' as <-.
  exists c, pre. rewrite Hx. simpl.
  rewrite total_votes_getIndex in Htot. by split_and!.
Qed.

Lemma vote_tally e r s : now e ≠ "" → tally_ok s → tally_ok (vote e r s).2.
Proof.
  intros Hnow (Hsum & Hglob & Hfin).
  destruct (vote_cases e r s)
    as [[E _]|[[E _]|[(rec & E & _)|[(rec & E & _)|(rec & Ha)]]]];
    try (by rewrite E).
  destruct (put_ok e) eqn:Hp.
  - destruct (vote_stored e r s rec Ha Hp)
      as (c & pre & _ & _ & _ & _ & Htot & Hcache & Hstats & Hdb).
    unfold tally_ok. rewrite Hcache, Hstats, Hdb.
    rewrite createStats_counts, createStats_global.
    split_and!; [done..|].
    rewrite (total_votes_perm _ pre) by apply array_sort_perm.
    destruct Ha as (_ & Hd & _ & Hc & _).
    rewrite (finalized_records_insert (db s) _ rec); [| done | | ].
    + simpl. by rewrite Htot, Hfin.
    + unfold finalized. by rewrite Hc.
    + by apply finalized_finalize.
  - destruct (vote_write_rejected e r s rec Ha Hp)
      as (Hdb & Hstats & Hcache & _).
    unfold tally_ok. rewrite Hdb, Hstats, Hcache, total_votes_getIndex.
    done.
Qed.

Lemma run_tally tr s : Forall clock_ok tr → tally_ok s → tally_ok (run tr s).
Proof.
  intros Hclk. revert s.
  induction Hclk as [|[e r] tr Hnow _ IH]; intros s Hs; simpl; [done|].
  apply IH. by apply vote_tally.
Qed.

(** C7: from a state whose stats are [createStats(cache)] and whose cache
    lists as many votes as the store has finalized records, after any
    sequence of requests the global count of the stats is the sum of the
    per-country counts of the stats, is the sum of the list lengths of the
    cache, and is the number of finalized records in the store. *)
Theorem stats_global_count tr s0 :
  Forall clock_ok tr →
  stats s0 = createStats (cache s0) →
  total_votes (cache s0) = length (finalized_records (db s0)) →
  Stats.global_count (listStats (run tr s0))
    = sum_list (Stats.count <$> Stats.country (listStats (run tr s0)))
  ∧ Stats.global_count (listStats (run tr s0)) = total_votes (cache (run tr s0))
  ∧ Stats.global_count (listStats (run tr s0))
    = length (finalized_records (db (run tr s0))).
Proof.
  intros Hclk Hstats Htot.
  assert (tally_ok s0) as H0.
  { unfold tally_ok.
    by rewrite Hstats, createStats_counts, createStats_global. }
  destruct (run_tally tr s0 Hclk H0) as (Hsum & Hglob & Hfin).
  unfold listStats. split_and!; [done..|]. by rewrite Hglob.
Qed.

(** With a coherent cache, the cached list of a country is as long as the
    country has finalized records. *)
Lemma coherent_count s c :
  coherent s → length (country_votes (db s) c) = count_of c (cache s).
Proof.
  intros [_ Hidx]. specialize (Hidx c). apply Permutation_length in Hidx.
  unfold country_indices in Hidx.
  by rewrite !length_fmap, length_seq in Hidx.
Qed.

Lemma vote_coherent e r s : now e ≠ "" → coherent s → coherent (vote e r s).2.
Proof.
  intros Hnow Hco.
  destruct (vote_cases e r s)
    as [[E _]|[[E _]|[(rec & E & _)|[(rec & E & _)|(rec & Ha)]]]];
    try (by rewrite E).
  destruct Hco as [Hnd Hidx].
  destruct (put_ok e) eqn:Hp.
  - destruct (vote_stored e r s rec Ha Hp)
      as (c & pre & Hc & Hcodes & Hfind & Hother & _ & Hcache & _ & Hdb).
    assert (NoDup (Country.code <$> pre)) as Hndp.
    { rewrite Hcodes. by apply getIndex_NoDup. }
    assert (array_sort compareCount pre ≡ₚ pre) as Hperm
      by apply array_sort_perm.
    split.
    + rewrite Hcache. by rewrite Hperm.
    + intros m. rewrite Hcache, Hdb.
      rewrite (count_of_perm m _ pre); [|by rewrite Hperm|done].
      destruct Ha as (_ & Hd & _ & Hcr & _).
      unfold country_indices.
      rewrite (country_votes_insert (db s) _ rec); [|done| |].
      2: { unfold finalized. by rewrite Hcr. }
      2: { by apply finalized_finalize. }
      change (nationality (new_vote e r s)) with (nationality (payload r)).
      case_decide as Hm.
      * subst m. unfold count_of at 1. rewrite Hfind.
        cbn [Country.vote length app].
        apply find_country_getIndex_length in Hc.
        rewrite Hc, seq_snoc_perm, fmap_cons.
        unfold new_vote at 1. cbn [index finalize]. rewrite getIndex_fst.
        apply Permutation_skip. apply Hidx.
      * cbn [app]. unfold count_of at 1. rewrite (Hother m) by done.
        fold (count_of m (getIndex (payload r) (cache s)).2).
        rewrite count_of_getIndex. apply Hidx.
  - destruct (vote_write_rejected e r s rec Ha Hp) as (Hdb & _ & Hcache & _).
    split.
    + rewrite Hcache. by apply getIndex_NoDup.
    + intros m. rewrite Hdb, Hcache, count_of_getIndex. apply Hidx.
Qed.

Lemma run_coherent tr s : Forall clock_ok tr → coherent s → coherent (run tr s).
Proof.
  intros Hclk. revert s.
  induction Hclk as [|[e r] tr Hnow _ IH]; intros s Hs; simpl; [done|].
  apply IH. by apply vote_coherent.
Qed.

(** A finalized record is never overwritten. *)
Lemma vote_keeps_finalized e r s k v :
  db s !! k = Some v → finalized v → db (vote e r s).2 !! k = Some v.
Proof.
  intros Hk Hv.
  destruct (vote_cases e r s)
    as [[E _]|[[E _]|[(rec & E & _)|[(rec & E & _)|(rec & Ha)]]]];
    try (by rewrite E).
  rewrite (vote_admissible e r s rec Ha). simpl.
  rewrite db_enqueue_job, db_store_vote.
  destruct (put_ok e); [|done].
  destruct Ha as (_ & Hd & _ & Hcr & _).
  rewrite lookup_insert_ne; [done|].
  intros <-. rewrite Hd in Hk. injection Hk as ->.
  unfold finalized in Hv. congruence.
Qed.

(** C1: from a coherent state, after any sequence of requests, for every
    country the indices of its finalized records are a permutation of
    1, 2, ..., n, where n is the number of those records (so there are no
    gaps and no duplicates); the record written by the next accepted
    request gets the index n + 1 for its country; and no request changes
    a finalized record, whatever is done to the order of the cache. *)
Theorem country_indices_consecutive tr s0 :
  Forall clock_ok tr →
  coherent s0 →
  (∀ c, country_indices (db (run tr s0)) c
        ≡ₚ Some <$> seq 1 (length (country_votes (db (run tr s0)) c)))
  ∧ (∀ e r rec,
       admissible r (run tr s0) rec → put_ok e = true →
       db (vote e r (run tr s0)).2
         = <[credentials_email r := new_vote e r (run tr s0)]> (db (run tr s0))
       ∧ index (new_vote e r (run tr s0))
         = Some (length (country_votes (db (run tr s0))
                           (nationality (payload r))) + 1))
  ∧ (∀ e r k v,
       db (run tr s0) !! k = Some v → finalized v →
       db (vote e r (run tr s0)).2 !! k = Some v).
Proof.
  intros Hclk H0.
  pose proof (run_coherent tr s0 Hclk H0) as Hco.
  split_and!.
  - intros c. rewrite (coherent_count _ c Hco). apply Hco.
  - intros e r rec Ha Hp. split.
    + by apply (vote_write_resolved e r _ rec).
    + rewrite (coherent_count _ _ Hco). unfold new_vote. simpl.
      by rewrite getIndex_fst.
  - intros e r k v. apply vote_keeps_finalized.
Qed.

End Invariants.

(** * Properties of the worker *)

Section WorkerFacts.

Context {emailText : EmailText} {json : Json}.

Variable config : Config.

Lemma backup_guard_true data :
  backup_guard config data = true
  ↔ truthy (backup_url config) = true
    ∧ truthy (backup_token config) = true
    ∧ truthy (confirmed data) = true.
Proof. unfold backup_guard. rewrite !andb_true_iff. tauto. Qed.

Lemma attempts_process w data :
  attempts (process config w data)
  = SendMail (generateMail config data)
      :: (if backup_guard config data
          then [Fetch (backup_request config data)] else []).
Proof.
  unfold process, send_email, backup_vote, attempts.
  destruct (mail_ok w), (backup_guard config data), (fetch_ok w); done.
Qed.

Lemma fetch_in_process w data q :
  Fetch q ∈ process config w data
  ↔ backup_guard config data = true ∧ q = backup_request config data.
Proof.
  unfold process, send_email, backup_vote.
  rewrite elem_of_app, elem_of_cons. split.
  - intros [[Hq|Hq]|Hq].
    + discriminate.
    + destruct (mail_ok w); [by apply elem_of_nil in Hq|].
      apply list_elem_of_singleton in Hq. discriminate.
    + destruct (backup_guard config data); [|by apply elem_of_nil in Hq].
      split; [done|].
      apply elem_of_cons in Hq as [Hq|Hq]; [by injection Hq|].
      destruct (fetch_ok w); [by apply elem_of_nil in Hq|].
      apply list_elem_of_singleton in Hq. discriminate.
  - intros [-> ->]. right. apply list_elem_of_here.
Qed.

(** C10 (as amended): for every job the mail is sent whatever the backup
    does, and the backup is attempted whatever the mail did; the backup is
    attempted exactly when the backup url and the backup token are
    configured and the job's record has a truthy [confirmed]; the request
    then carries the serialized record and the bearer token. *)
Theorem process_effects w data :
  SendMail (generateMail config data) ∈ process config w data
  ∧ ((∃ q, Fetch q ∈ process config w data)
       ↔ truthy (backup_url config) = true
         ∧ truthy (backup_token config) = true
         ∧ truthy (confirmed data) = true)
  ∧ (∀ q, Fetch q ∈ process config w data →
       q = backup_request config data
       ∧ http_body q = JSON_stringify data
       ∧ http_authorization q = "Bearer " +:+ text_of (backup_token config))
  ∧ (∀ w', attempts (process config w data)
           = attempts (process config w' data)).
Proof.
  split_and!.
  - unfold process, send_email. apply elem_of_app. left. apply list_elem_of_here.
  - rewrite <- backup_guard_true. split.
    + intros [q Hq]. by apply fetch_in_process in Hq as [Hg _].
    + intros Hg. exists (backup_request config data).
      by apply fetch_in_process.
  - intros q Hq. by apply fetch_in_process in Hq as [_ ->].
  - intros w'. by rewrite !attempts_process.
Qed.

End WorkerFacts.

(** * The theorems at work on sample data *)

Section Examples.

Local Existing Instance sample_common.
Local Existing Instance sample_text.
Local Existing Instance sample_json.

Lemma six_registered_unfinalized :
  ∀ k v, six_registered !! k = Some v → ¬ finalized v.
Proof.
  change (map_Forall (λ _ v, ¬ finalized v) six_registered).
  apply (bool_decide_unpack _). vm_compute. exact I.
Defined.

Lemma sample_public_total : ∀ v, is_Some (extractPublicPart v).
Proof. intros v. eexists. reflexivity. Defined.

Lemma four_votes_clock : Forall clock_ok four_votes.
Proof. repeat constructor; discriminate. Defined.

Lemma first_request_admissible :
  admissible (put_request "c1" "a@x.org" "FR") (start six_registered)
    (registration "c1" "a@x.org").
Proof. repeat split; reflexivity. Defined.

(** Two countries, two votes each, indices 1 and 2 in both. *)
Lemma country_indices_consecutive_witness :
  Forall clock_ok four_votes
  ∧ coherent (start six_registered)
  ∧ country_indices (db (run four_votes (start six_registered))) (Some "B")
    ≡ₚ [Some 1; Some 2].
Proof.
  split; [exact four_votes_clock|].
  split; [exact (start_coherent _ six_registered_unfinalized)|].
  destruct (country_indices_consecutive sample_public_total four_votes
              (start six_registered) four_votes_clock
              (start_coherent _ six_registered_unfinalized)) as [Hidx _].
  exact (Hidx (Some "B")).
Defined.

(** The first voter votes and then sends the same form again. *)
Lemma vote_conflict_iff_witness :
  db (start six_registered) !! "a@x.org" = Some (registration "c1" "a@x.org")
  ∧ ∀ e',
      (vote e' (put_request "c1" "a@x.org" "FR")
         (vote (all_ok "2020-03-01T10:00:00.000Z")
            (put_request "c1" "a@x.org" "FR") (start six_registered)).2).1
      = Conflict.
Proof.
  split; [reflexivity|]. intros e'.
  destruct (vote_conflict_iff (all_ok "2020-03-01T10:00:00.000Z")
              (put_request "c1" "a@x.org" "FR") (start six_registered)
              (registration "c1" "a@x.org") eq_refl eq_refl)
    as (_ & _ & _ & Hagain).
  rewrite Hagain; [reflexivity|reflexivity|discriminate|reflexivity].
Defined.

(** The write fails: 204 all the same, and the job is in the queue. *)
Lemma vote_put_failure_witness :
  put_ok (put_fails "2020-03-01T10:00:00.000Z") = false
  ∧ (vote (put_fails "2020-03-01T10:00:00.000Z")
       (put_request "c1" "a@x.org" "FR") (start six_registered)).1 = NoContent
  ∧ db (vote (put_fails "2020-03-01T10:00:00.000Z")
          (put_request "c1" "a@x.org" "FR") (start six_registered)).2
    = six_registered.
Proof.
  split; [reflexivity|].
  destruct (vote_put_failure (put_fails "2020-03-01T10:00:00.000Z")
              (put_request "c1" "a@x.org" "FR") (start six_registered)
              (registration "c1" "a@x.org")
              first_request_admissible eq_refl)
    as (Hres & _ & Hdb & _).
  split; [exact Hres|exact Hdb].
Defined.

(** The projection throws and the queue is down: 204 all the same. *)
Lemma vote_success_after_commit_witness :
  put_ok (save_fails "2020-03-01T10:00:00.000Z") = true
  ∧ (vote (common := broken_common) (save_fails "2020-03-01T10:00:00.000Z")
       (put_request "c1" "a@x.org" "FR") (start six_registered)).1 = NoContent.
Proof.
  split; [reflexivity|].
  destruct (vote_success_after_commit (common := broken_common)
              (save_fails "2020-03-01T10:00:00.000Z")
              (put_request "c1" "a@x.org" "FR") (start six_registered)
              (registration "c1" "a@x.org")
              first_request_admissible eq_refl)
    as (Hres & _).
  exact Hres.
Defined.

Lemma vote_consent_required_witness :
  over_18 (payload unticked) ≠ Some "on"
  ∧ vote (all_ok "2020-03-01T10:00:00.000Z") unticked (start six_registered)
    = (NotAcceptable, start six_registered).
Proof.
  split; [discriminate|].
  destruct (vote_consent_required (all_ok "2020-03-01T10:00:00.000Z")
              unticked (start six_registered))
    as (_ & _ & Hna); [right; discriminate|].
  exact (Hna (registration "c1" "a@x.org") eq_refl eq_refl eq_refl eq_refl).
Defined.

Lemma update_cache_prepends_witness :
  NoDup (Country.code <$> cache one_vote_FR)
  ∧ (∃ c, find_country (Some "FR")
            (cache (update_cache
                      (finalize (ballot "c2" "b@x.org" "FR")
                         "2020-03-01T10:05:00.000Z" 2) one_vote_FR))
          = Some c
          ∧ length (Country.vote c) = 2).
Proof.
  assert (NoDup (Country.code <$> cache one_vote_FR)) as Hnd.
  { apply (bool_decide_unpack _). vm_compute. exact I. }
  split; [exact Hnd|].
  pose (v := finalize (ballot "c2" "b@x.org" "FR")
               "2020-03-01T10:05:00.000Z" 2).
  assert (extractPublicPart v = Some (default v (sample_public v))) as Hx
    by reflexivity.
  destruct (update_cache_prepends v (default v (sample_public v))
              one_vote_FR _ Hnd Hx eq_refl) as (Hfind & _).
  eexists. split; [exact Hfind|reflexivity].
Defined.

Lemma stats_global_count_witness :
  Forall clock_ok four_votes
  ∧ Stats.global_count (listStats (run four_votes (start six_registered))) = 4
  ∧ length (finalized_records (db (run four_votes (start six_registered)))) = 4.
Proof.
  split; [exact four_votes_clock|].
  destruct (stats_global_count sample_public_total four_votes
              (start six_registered) four_votes_clock eq_refl eq_refl)
    as (_ & _ & Hfin).
  split; [reflexivity|]. rewrite <- Hfin. reflexivity.
Defined.

Lemma vote_unregistered_witness :
  db (start ∅) !! "a@x.org" = None
  ∧ vote (all_ok "2020-03-01T10:00:00.000Z")
      (put_request "c1" "a@x.org" "FR") (start ∅)
    = (Rejected NotFoundError, start ∅).
Proof.
  assert (db (start ∅) !! "a@x.org" = None) as Hd by reflexivity.
  split; [exact Hd|].
  destruct (vote_unregistered (all_ok "2020-03-01T10:00:00.000Z")
              (put_request "c1" "a@x.org" "FR") (start ∅) Hd)
    as (Hst & _ & _ & Hrej).
  destruct (Hrej eq_refl) as [Hres _].
  rewrite (surjective_pairing (vote _ _ _)). by rewrite Hres, Hst.
Defined.

Lemma vote_sorts_cache_witness :
  admissible (put_request "c4" "d@x.org" "A") three_votes
    (registration "c4" "d@x.org")
  ∧ StronglySorted count_ge
      (cache (vote (all_ok "2020-03-01T10:15:00.000Z")
                (put_request "c4" "d@x.org" "A") three_votes).2).
Proof.
  assert (admissible (put_request "c4" "d@x.org" "A") three_votes
            (registration "c4" "d@x.org")) as Ha
    by (repeat split; reflexivity).
  split; [exact Ha|].
  pose (v := new_vote (all_ok "2020-03-01T10:15:00.000Z")
               (put_request "c4" "d@x.org" "A") three_votes).
  assert (extractPublicPart v = Some (default v (sample_public v))) as Hx
    by reflexivity.
  destruct (vote_sorts_cache (all_ok "2020-03-01T10:15:00.000Z")
              (put_request "c4" "d@x.org" "A") three_votes
              (registration "c4" "d@x.org") (default v (sample_public v))
              Ha eq_refl Hx)
    as (pre & _ & _ & Hsorted & _).
  exact Hsorted.
Defined.

(** The mail server is down; the confirmed record is posted all the same. *)
Lemma process_effects_witness :
  truthy (confirmed confirmed_job) = true
  ∧ Fetch (backup_request sample_config confirmed_job)
    ∈ process sample_config {| mail_ok := false; fetch_ok := true |}
        confirmed_job.
Proof.
  split; [reflexivity|].
  destruct (process_effects sample_config
              {| mail_ok := false; fetch_ok := true |} confirmed_job)
    as (_ & Hiff & Hreq & _).
  destruct (proj2 Hiff) as [q Hq]; [by split_and!|].
  by destruct (Hreq q Hq) as [<- _].
Defined.

(** *** Where the written specification and the code part ways *)

(** C3: [db.put] rejects, and the handler answers 204, saves the job, and
    leaves the empty country pushed by [getIndex] in the cache. *)
Lemma put_failure_not_surfaced :
  put_ok (put_fails "2020-03-01T10:00:00.000Z") = false
  ∧ (vote (put_fails "2020-03-01T10:00:00.000Z")
       (put_request "c1" "a@x.org" "FR") (start six_registered)).1 = NoContent
  ∧ statusCode
      (vote (put_fails "2020-03-01T10:00:00.000Z")
         (put_request "c1" "a@x.org" "FR") (start six_registered)).1 ≠ 500%Z
  ∧ queue (vote (put_fails "2020-03-01T10:00:00.000Z")
             (put_request "c1" "a@x.org" "FR") (start six_registered)).2
    = [finalize (ballot "c1" "a@x.org" "FR") "2020-03-01T10:00:00.000Z" 1]
  ∧ listVotes "FR" (start six_registered) = None
  ∧ listVotes "FR"
      (vote (put_fails "2020-03-01T10:00:00.000Z")
         (put_request "c1" "a@x.org" "FR") (start six_registered)).2
    = Some {| Country.code := Some "FR"; Country.vote := [] |}.
Proof. split_and!; try reflexivity. discriminate. Qed.

(** C6: after six votes for FR the country served by [listVotes] lists
    six votes. *)
Lemma listVotes_not_capped :
  ∃ c, listVotes "FR" (run six_votes_FR (start six_registered)) = Some c
       ∧ length (Country.vote c) = 6
       ∧ ¬ length (Country.vote c) ≤ 5.
Proof. eexists. split; [reflexivity|]. split; [reflexivity|]. simpl. lia. Qed.

(** C8: no record for the identity, and the answer is not Forbidden: the
    handler rejects with the error of [db.get]. *)
Lemma unregistered_not_forbidden :
  db (start ∅) !! "a@x.org" = None
  ∧ (vote (all_ok "2020-03-01T10:00:00.000Z")
       (put_request "c1" "a@x.org" "FR") (start ∅)).1 ≠ Forbidden
  ∧ (vote (all_ok "2020-03-01T10:00:00.000Z")
       (put_request "c1" "a@x.org" "FR") (start ∅)).1 = Rejected NotFoundError
  ∧ statusCode
      (vote (all_ok "2020-03-01T10:00:00.000Z")
         (put_request "c1" "a@x.org" "FR") (start ∅)).1 ≠ 403%Z.
Proof. split_and!; try reflexivity; discriminate. Qed.

(** C9: A is pushed before B; after the votes A, B, B, A both have two
    votes and B stands before A. *)
Lemma ties_not_in_insertion_order :
  codes (cache (run (take 2 four_votes) (start six_registered)))
    = [Some "A"; Some "B"]
  ∧ codes (cache (run four_votes (start six_registered)))
    = [Some "B"; Some "A"]
  ∧ (λ c, length (Country.vote c)) <$> cache (run four_votes (start six_registered))
    = [2; 2]
  ∧ ¬ ties_follow [Some "A"; Some "B"]
        (cache (run four_votes (start six_registered))).
Proof.
  split_and!; try reflexivity.
  intros Hties. specialize (Hties 2).
  assert (codes (filter (λ c, length (Country.vote c) = 2)
                   (cache (run four_votes (start six_registered))))
          = [Some "B"; Some "A"]) as E by reflexivity.
  rewrite E in Hties.
  apply sublist_cons_l in Hties as (k1 & k2 & Hk & Hsub).
  apply sublist_cons_l in Hsub as (k3 & k4 & -> & _).
  assert (k1 = [] ∧ k3 = []) as [-> ->].
  { apply (f_equal length) in Hk.
    repeat (rewrite ?length_app, ?length_cons in Hk; simpl in Hk).
    split; apply nil_length_inv; lia. }
  discriminate Hk.
Qed.

(** C10: url and token are configured, the job is the record of an
    accepted vote, and the worker sends the mail and nothing else. *)
Lemma backup_skipped_for_stored_vote :
  queue one_vote_FR = [first_job]
  ∧ db one_vote_FR !! "a@x.org" = Some first_job
  ∧ truthy (backup_url sample_config) = true
  ∧ truthy (backup_token sample_config) = true
  ∧ process sample_config {| mail_ok := true; fetch_ok := true |} first_job
    = [SendMail (generateMail sample_config first_job)]
  ∧ ¬ ∃ q, Fetch q
           ∈ process sample_config {| mail_ok := true; fetch_ok := true |}
               first_job.
Proof.
  split_and!; try reflexivity.
  intros [q Hq].
  change (Fetch q ∈ [SendMail (generateMail sample_config first_job)]) in Hq.
  apply list_elem_of_singleton in Hq. discriminate.
Qed.

End Examples.

(** * More about the vote handler and the cache *)

Section HandlerFacts.

Context {common : Common}.

(** X1: the answer of the PUT handler is decided by the request and the store
    alone: the clock, the outcome of [db.put] and of the queue save, the
    cache and [extractPublicPart] have no part in it. *)
Theorem vote_answer_by_store (common' : Common) e e' r s s' :
  db s = db s' →
  (vote (common := common) e r s).1 = (vote (common := common') e' r s').1.
Proof.
  intros Hdb. unfold vote. rewrite Hdb.
  destruct (negb (strict_eq (email (payload r)) (Some (credentials_email r))));
    [done|].
  destruct (db s' !! credentials_email r) as [rec|]; [|done].
  destruct (negb (strict_eq (id (payload r)) (id rec)) || truthy (created rec));
    [done|].
  destruct (negb (strict_eq (accept_terms (payload r)) (Some "on"))
            || negb (strict_eq (over_18 (payload r)) (Some "on"))); [done|].
  by destruct (getIndex (payload r) (cache s)), (getIndex (payload r) (cache s')).
Qed.

Lemma vote_dom e r s : dom (db (vote e r s).2) = dom (db s).
Proof.
  destruct (vote_cases e r s)
    as [[E _]|[[E _]|[(rec & E & _)|[(rec & E & _)|(rec & Ha)]]]];
    try (by rewrite E).
  rewrite (vote_admissible e r s rec Ha). simpl.
  rewrite db_enqueue_job, db_store_vote.
  destruct (put_ok e); [|done].
  destruct Ha as (_ & Hd & _).
  apply dom_insert_lookup_L. eauto.
Qed.

(** X2: the PUT handler neither adds nor removes a key of the store, over any
    sequence of requests. *)
Theorem run_preserves_keys tr s : dom (db (run tr s)) = dom (db s).
Proof.
  revert s. induction tr as [|[e r] tr IH]; intros s; simpl; [done|].
  by rewrite IH, vote_dom.
Qed.

(** X3: the lines the handler writes to the log for an admissible request are
    exactly the failures of its two [try] blocks; the [find] of line 220
    never comes back empty, so no TypeError is among them. *)
Theorem vote_log e r s rec :
  admissible r s rec →
  log (vote e r s).2
  = log s
    ++ (if put_ok e
        then match extractPublicPart (new_vote e r s) with
             | Some _ => []
             | None => [ProjectionError]
             end
        else [WriteError])
    ++ (if save_ok e then [] else [QueueError]).
Proof.
  intros Ha. rewrite (vote_admissible e r s rec Ha). simpl.
  assert (log (store_vote e (credentials_email r) (new_vote e r s) (indexed r s))
          = log s ++ (if put_ok e
                      then match extractPublicPart (new_vote e r s) with
                           | Some _ => []
                           | None => [ProjectionError]
                           end
                      else [WriteError])) as Hstore.
  { unfold store_vote, update_cache. destruct (put_ok e); [|done]. simpl.
    destruct (extractPublicPart (new_vote e r s)) as [p|]; [|done].
    destruct (find_country_getIndex (payload r) (cache s)) as (c & Hc & _).
    destruct (prepend_vote_Some _ p _ c Hc) as (pre & Hpre & _).
    change (nationality (new_vote e r s)) with (nationality (payload r)).
    rewrite Hpre. simpl. by rewrite app_nil_r. }
  unfold enqueue_job. destruct (save_ok e); simpl; rewrite Hstore.
  - by rewrite app_nil_r.
  - by rewrite <- app_assoc.
Qed.

(** A request that is not answered 204 writes nothing to the log. *)
Lemma vote_rejected_log e r s :
  (vote e r s).1 ≠ NoContent → log (vote e r s).2 = log s.
Proof. intros Hn. by rewrite (vote_rejected_unchanged e r s Hn). Qed.

End HandlerFacts.

Section MoreCacheFacts.

Implicit Types (l : list Country.t) (v : Vote).

(** X4: [getIndex] extends the cache by at most the one empty country it is
    asked about, answers at least 1, and a second call with the same vote
    finds the cache as the first call left it. *)
Theorem getIndex_again v l :
  getIndex v (getIndex v l).2 = getIndex v l
  ∧ 1 ≤ (getIndex v l).1
  ∧ ((getIndex v l).2 = l
     ∨ (getIndex v l).2 = l ++ [{| Country.code := nationality v;
                                    Country.vote := [] |}]
       ∧ find_country (nationality v) l = None).
Proof.
  split_and!.
  - destruct (find_country_getIndex v l) as (c & Hc & Hlen).
    rewrite (surjective_pairing (getIndex v l)) at 2.
    unfold getIndex at 1. rewrite Hc. f_equal.
    by rewrite Hlen, getIndex_fst.
  - rewrite getIndex_fst. lia.
  - unfold getIndex. destruct (find_country (nationality v) l); simpl; auto.
Qed.

Lemma sort_insert_front x l :
  Forall (count_ge x) l → sort_insert compareCount x l = x :: l.
Proof.
  destruct l as [|y l]; [done|]. intros Hall. simpl.
  apply Forall_cons in Hall as [Hy _].
  apply compareCount_le in Hy. by rewrite Hy.
Qed.

Lemma array_sort_sorted_id l :
  StronglySorted count_ge l → array_sort compareCount l = l.
Proof.
  induction 1 as [|x l Hs IH Hx]; simpl; [done|].
  rewrite IH. by apply sort_insert_front.
Qed.

(** X5: sorting puts nothing out of place that is in place: a cache in
    descending order of count is left as it is, so sorting twice is
    sorting once. *)
Theorem array_sort_idempotent l :
  array_sort compareCount (array_sort compareCount l)
  = array_sort compareCount l.
Proof. apply array_sort_sorted_id, array_sort_sorted. Qed.

(** X6: [createStats] keeps the countries and their order, gives each entry
    the full count and the first five votes, and its global count is the
    sum of the counts of its entries. *)
Theorem createStats_shape l :
  Stats.code <$> Stats.country (createStats l) = Country.code <$> l
  ∧ Forall (λ ent, length (Stats.vote ent) = Stats.count ent `min` 5)
      (Stats.country (createStats l))
  ∧ Stats.global_count (createStats l)
    = sum_list (Stats.count <$> Stats.country (createStats l)).
Proof.
  split_and!.
  - rewrite createStats_country, <- list_fmap_compose. done.
  - rewrite createStats_country. apply Forall_fmap, Forall_forall.
    intros c _. simpl. rewrite length_take. lia.
  - by rewrite createStats_counts, createStats_global.
Qed.

End MoreCacheFacts.

(** * Invariants that need no assumption on the collaborators *)

Section RobustInvariants.

Context {common : Common}.

(** The cache after an admissible request: what [getIndex] left, or that
    with the projection prepended to the country of the vote and sorted. *)
Lemma vote_cache_cases e r s rec :
  admissible r s rec →
  cache (vote e r s).2 = (getIndex (payload r) (cache s)).2
  ∧ stats (vote e r s).2 = stats s
  ∨ ∃ p c pre,
      find_country (nationality (payload r)) (getIndex (payload r) (cache s)).2
        = Some c
      ∧ prepend_vote (nationality (payload r)) p
          (getIndex (payload r) (cache s)).2 = Some pre
      ∧ cache (vote e r s).2 = array_sort compareCount pre
      ∧ stats (vote e r s).2 = createStats (array_sort compareCount pre).
Proof.
  intros Ha. rewrite (vote_admissible e r s rec Ha). simpl.
  rewrite cache_enqueue_job, stats_enqueue_job.
  unfold store_vote. destruct (put_ok e); [|by left].
  unfold update_cache. simpl.
  destruct (extractPublicPart (new_vote e r s)) as [p|]; [|by left].
  destruct (find_country_getIndex (payload r) (cache s)) as (c & Hc & _).
  destruct (prepend_vote_Some _ p _ c Hc) as (pre & Hpre & _).
  change (nationality (new_vote e r s)) with (nationality (payload r)).
  rewrite Hpre. simpl. right. by exists p, c, pre.
Qed.

Lemma filter_to_entry (l : list Country.t) :
  filter (λ ent, Stats.count ent ≠ 0) (to_entry <$> l)
  = to_entry <$> filter (λ c, Country.vote c ≠ []) l.
Proof.
  induction l as [|c l IH]; [done|].
  rewrite fmap_cons, !filter_cons, IH. simpl.
  destruct (Country.vote c) eqn:Hv; simpl; repeat case_decide; done.
Qed.

Lemma filter_getIndex v (l : list Country.t) :
  filter (λ c, Country.vote c ≠ []) (getIndex v l).2
  = filter (λ c, Country.vote c ≠ []) l.
Proof.
  unfold getIndex. destruct (find_country (nationality v) l); [done|]. simpl.
  rewrite filter_app, filter_cons_False, filter_nil, app_nil_r; [done|].
  simpl. by intros [].
Qed.

Lemma vote_listed e r s : listed s → listed (vote e r s).2.
Proof.
  intros Hl.
  destruct (vote_cases e r s)
    as [[E _]|[[E _]|[(rec & E & _)|[(rec & E & _)|(rec & Ha)]]]];
    try (by rewrite E).
  unfold listed.
  destruct (vote_cache_cases e r s rec Ha)
    as [[-> ->]|(p & c & pre & _ & _ & -> & ->)].
  - by rewrite filter_getIndex.
  - rewrite createStats_country. apply filter_to_entry.
Qed.

(** X7: from a state whose stats are [createStats(cache)], after any sequence of
    requests and whatever fails on the way, GET /stats lists exactly the
    countries of the cache that have a vote, in the order of the cache: the
    only countries it can miss are empty ones pushed by [getIndex]. *)
Theorem stats_list_voted_countries tr s0 :
  stats s0 = createStats (cache s0) →
  filter (λ ent, Stats.count ent ≠ 0) (Stats.country (listStats (run tr s0)))
  = to_entry <$> filter (λ c, Country.vote c ≠ []) (cache (run tr s0)).
Proof.
  intros Hs.
  assert (listed s0) as H0.
  { unfold listed. rewrite Hs, createStats_country. apply filter_to_entry. }
  clear Hs. revert s0 H0.
  induction tr as [|[e r] tr IH]; intros s0 H0; simpl; [done|].
  apply IH. by apply vote_listed.
Qed.

Lemma vote_cache_grows e r s :
  NoDup (Country.code <$> cache s) →
  NoDup (Country.code <$> cache (vote e r s).2)
  ∧ ∀ n, count_of n (cache s) ≤ count_of n (cache (vote e r s).2).
Proof.
  intros Hnd.
  destruct (vote_cases e r s)
    as [[E _]|[[E _]|[(rec & E & _)|[(rec & E & _)|(rec & Ha)]]]];
    try (by rewrite E).
  pose proof (getIndex_NoDup (payload r) _ Hnd) as Hnd1.
  destruct (vote_cache_cases e r s rec Ha)
    as [[-> _]|(p & c & pre & Hc & Hpre & -> & _)].
  - split; [done|]. intros n. by rewrite count_of_getIndex.
  - destruct (prepend_vote_Some _ p _ c Hc)
      as (pre' & Hpre' & Hcodes & Hfind & Hother & _).
    rewrite Hpre in Hpre'. injection Hpre' as <-.
    assert (NoDup (Country.code <$> pre)) as Hndp by by rewrite Hcodes.
    assert (array_sort compareCount pre ≡ₚ pre) as Hperm
      by apply array_sort_perm.
    split; [by rewrite Hperm|].
    intros n.
    rewrite (count_of_perm n (array_sort compareCount pre) pre);
      [|by rewrite Hperm|done].
    rewrite <- (count_of_getIndex n (payload r) (cache s)).
    destruct (decide (n = nationality (payload r))) as [->|Hn].
    + unfold count_of. rewrite Hfind, Hc. simpl. lia.
    + unfold count_of. by rewrite (Hother n Hn).
Qed.

(** X8: whatever fails on the way, the cache never holds two countries with the
    same code, and no country ever loses a vote or disappears from it. *)
Theorem run_cache_grows tr s :
  NoDup (Country.code <$> cache s) →
  NoDup (Country.code <$> cache (run tr s))
  ∧ ∀ n, count_of n (cache s) ≤ count_of n (cache (run tr s)).
Proof.
  revert s. induction tr as [|[e r] tr IH]; intros s Hnd; simpl; [done|].
  destruct (vote_cache_grows e r s Hnd) as [Hnd1 Hle].
  destruct (IH _ Hnd1) as [Hnd2 Hle2].
  split; [done|]. intros n. specialize (Hle n). specialize (Hle2 n). lia.
Qed.

End RobustInvariants.

(** * The OAuth callback, the entry point and the export *)

Section RegistrationFacts.

Context {common : Common}.

Variable cfg : ServerConfig.

Lemma truthy_text p : truthy p = true → p = Some (text_of p).
Proof. by destruct p. Qed.

(** The three outcomes of the callback for a profile with an e-mail. *)
Lemma oauth_cases o p s :
  truthy p = true →
  (get_error o = false ∧ is_Some (db s !! text_of p)
   ∧ oauth cfg o p s = (Redirect (appUrl cfg +:+ "/voters") (Some (text_of p)), s))
  ∨ ((get_error o = true ∨ db s !! text_of p = None)
     ∧ oauth_put_ok o = true
     ∧ (oauth cfg o p s).1 = Redirect (appUrl cfg +:+ "/voters") (Some (text_of p))
     ∧ db (oauth cfg o p s).2
       = <[text_of p := new_registration cfg o (text_of p)]> (db s)
     ∧ cache (oauth cfg o p s).2 = cache s
     ∧ stats (oauth cfg o p s).2 = stats s
     ∧ queue (oauth cfg o p s).2 = queue s)
  ∨ ((get_error o = true ∨ db s !! text_of p = None)
     ∧ oauth_put_ok o = false
     ∧ oauth cfg o p s = (OauthRejected WriteError, s)).
Proof.
  intros Hp. unfold oauth. rewrite Hp.
  destruct (get_error o) eqn:Hg.
  - destruct (oauth_put_ok o); [right; left|right; right]; auto 10.
  - destruct (db s !! text_of p) eqn:Hd.
    + left. eauto.
    + destruct (oauth_put_ok o); [right; left|right; right]; auto 10.
Qed.

Lemma oauth_no_profile o p s :
  truthy p = false → oauth cfg o p s = (Redirect (appUrl cfg +:+ "/voters") None, s).
Proof. intros Hp. unfold oauth. by rewrite Hp. Qed.

Lemma oauth_queue o p s : queue (oauth cfg o p s).2 = queue s.
Proof.
  destruct (truthy p) eqn:Hp; [|by rewrite oauth_no_profile].
  destruct (oauth_cases o p s Hp)
    as [(_ & _ & ->)|[(_ & _ & _ & _ & _ & _ & ->)|(_ & _ & ->)]]; done.
Qed.

Lemma oauth_keeps_keys o p s k :
  is_Some (db s !! k) → is_Some (db (oauth cfg o p s).2 !! k).
Proof.
  intros Hk.
  destruct (truthy p) eqn:Hp; [|by rewrite oauth_no_profile].
  destruct (oauth_cases o p s Hp)
    as [(_ & _ & ->)|[(_ & _ & _ & -> & _)|(_ & _ & ->)]]; try done.
  destruct (decide (text_of p = k)) as [->|Hne].
  - rewrite lookup_insert_eq. eauto.
  - by rewrite lookup_insert_ne.
Qed.

Lemma oauth_keeps_record o p s k v :
  get_error o = false → db s !! k = Some v →
  db (oauth cfg o p s).2 !! k = Some v.
Proof.
  intros Hg Hk.
  destruct (truthy p) eqn:Hp; [|by rewrite oauth_no_profile].
  destruct (oauth_cases o p s Hp)
    as [(_ & _ & ->)|[([?|Hnone] & _ & _ & -> & _)|(_ & _ & ->)]];
    try done; [congruence|].
  rewrite lookup_insert_ne; [done|]. intros <-. congruence.
Qed.

Lemma step_keeps_keys c s k :
  is_Some (db s !! k) → is_Some (db (step cfg c s) !! k).
Proof.
  intros Hk. destruct c as [e r|o p]; simpl.
  - apply elem_of_dom. rewrite vote_dom. by apply elem_of_dom.
  - by apply oauth_keeps_keys.
Qed.

Lemma exec_keeps_keys cs s k :
  is_Some (db s !! k) → is_Some (db (exec cfg cs s) !! k).
Proof.
  revert s. induction cs as [|c cs IH]; intros s Hk; simpl; [done|].
  by apply IH, step_keeps_keys.
Qed.

(** X9: once an identity has a finalized record, no later request changes that
    record, and every later PUT of that identity is answered Forbidden or
    Conflict -- over any sequence of PUT requests and OAuth callbacks in
    which [db.get] does not reject for an existing key. *)
Theorem finalized_vote_stands cs s k v :
  db s !! k = Some v →
  finalized v →
  Forall no_read_error cs →
  db (exec cfg cs s) !! k = Some v
  ∧ ∀ e r, credentials_email r = k →
      (vote e r (exec cfg cs s)).1 = Forbidden
      ∨ (vote e r (exec cfg cs s)).1 = Conflict.
Proof.
  intros Hk Hv Hcs.
  assert (db (exec cfg cs s) !! k = Some v) as Hend.
  { revert s Hk. induction Hcs as [|c cs Hc _ IH]; intros s Hk; simpl; [done|].
    apply IH. destruct c as [e r|o p]; simpl.
    - by apply vote_keeps_finalized.
    - by apply oauth_keeps_record. }
  split; [done|]. intros e r <-.
  destruct (vote_cases e r (exec cfg cs s))
    as [[E _]|[[E (_ & Hd)]|[(rec & E & _)|[(rec & E & _ & Hd & _ & Hc & _)
                                            |(rec & _ & Hd & _ & Hc & _)]]]].
  - left. by rewrite E.
  - congruence.
  - right. by rewrite E.
  - rewrite Hend in Hd. injection Hd as <-. unfold finalized in Hv. congruence.
  - rewrite Hend in Hd. injection Hd as <-. unfold finalized in Hv. congruence.
Qed.

Lemma step_keyed c s : keyed (db s) → keyed (db (step cfg c s)).
Proof.
  intros Hkey. destruct c as [e r|o p]; simpl.
  - destruct (vote_cases e r s)
      as [[E _]|[[E _]|[(rec & E & _)|[(rec & E & _)|(rec & Ha)]]]];
      try (by rewrite E).
    rewrite (vote_admissible e r s rec Ha). simpl.
    rewrite db_enqueue_job, db_store_vote.
    destruct (put_ok e); [|done].
    destruct Ha as (He & _).
    intros k v Hkv. destruct (decide (credentials_email r = k)) as [<-|Hne].
    + rewrite lookup_insert_eq in Hkv. by injection Hkv as <-.
    + rewrite lookup_insert_ne in Hkv by done. by apply Hkey.
  - destruct (truthy p) eqn:Hp; [|by rewrite oauth_no_profile].
    destruct (oauth_cases o p s Hp)
      as [(_ & _ & ->)|[(_ & _ & _ & -> & _)|(_ & _ & ->)]]; try done.
    intros k v Hkv. destruct (decide (text_of p = k)) as [<-|Hne].
    + rewrite lookup_insert_eq in Hkv. by injection Hkv as <-.
    + rewrite lookup_insert_ne in Hkv by done. by apply Hkey.
Qed.

(** X10: every record is stored under the e-mail it carries: the PUT handler and
    the OAuth callback keep it so, whatever fails on the way. *)
Theorem exec_keyed cs s : keyed (db s) → keyed (db (exec cfg cs s)).
Proof.
  revert s. induction cs as [|c cs IH]; intros s Hkey; simpl; [done|].
  by apply IH, step_keyed.
Qed.

(** X11: when the callback sets the session cookie, the store has a record for
    the e-mail in it, and keeps one over any later sequence of requests:
    for such a session the PUT handler never rejects with NotFound and the
    entry point always returns a vote. *)
Theorem session_has_record o p s location m cs :
  (oauth cfg o p s).1 = Redirect location (Some m) →
  is_Some (db (exec cfg cs (oauth cfg o p s).2) !! m)
  ∧ (∀ e r, credentials_email r = m →
       (vote e r (exec cfg cs (oauth cfg o p s).2)).1 ≠ Rejected NotFoundError)
  ∧ ∃ v, entrypoint (Some m) (exec cfg cs (oauth cfg o p s).2)
         = EntryInfo {| facebook := "/auth/facebook"; google := "/auth/google";
                        info_vote := Some v |}.
Proof.
  intros Hred.
  assert (is_Some (db (oauth cfg o p s).2 !! m)) as Hm.
  { destruct (truthy p) eqn:Hp; [|by rewrite oauth_no_profile in Hred].
    destruct (oauth_cases o p s Hp)
      as [(_ & Hd & E)|[(_ & _ & E & Hdb & _)|(_ & _ & E)]]; rewrite E in Hred.
    - rewrite E. by injection Hred as _ <-.
    - rewrite Hdb. injection Hred as _ <-. rewrite lookup_insert_eq. eauto.
    - done. }
  apply (exec_keeps_keys cs) in Hm. destruct Hm as [v Hv].
  split_and!.
  - eauto.
  - intros e r <- Hrej.
    destruct (vote_cases e r (exec cfg cs (oauth cfg o p s).2))
      as [[E _]|[[E (_ & Hd)]|[(rec & E & _)|[(rec & E & _)|(rec & Ha)]]]];
      try (by rewrite E in Hrej).
    + congruence.
    + by rewrite (vote_admissible e r _ rec Ha) in Hrej.
  - exists v. unfold entrypoint. by rewrite Hv.
Qed.

(** X12: the id is assigned once: after a callback that redirected, a further
    callback for the same profile (during which [db.get] does not fail)
    gives the same redirect and cookie and changes nothing. *)
Theorem oauth_once o o' p s location cookie :
  (oauth cfg o p s).1 = Redirect location cookie →
  get_error o' = false →
  oauth cfg o' p (oauth cfg o p s).2
  = (Redirect location cookie, (oauth cfg o p s).2).
Proof.
  intros Hred Hg.
  destruct (truthy p) eqn:Hp.
  2: { rewrite oauth_no_profile in Hred |- * by done.
       simpl in *. by rewrite oauth_no_profile, Hred. }
  assert (is_Some (db (oauth cfg o p s).2 !! text_of p)
          ∧ location = appUrl cfg +:+ "/voters"
          ∧ cookie = Some (text_of p)) as (Hm & -> & ->).
  { destruct (oauth_cases o p s Hp)
      as [(_ & Hd & E)|[(_ & _ & E & Hdb & _)|(_ & _ & E)]]; rewrite E in Hred.
    - rewrite E. by injection Hred as <- <-.
    - rewrite Hdb, lookup_insert_eq. injection Hred as <- <-. eauto.
    - done. }
  destruct (oauth_cases o' p (oauth cfg o p s).2 Hp)
    as [(_ & _ & E)|[([?|Hnone] & _)|([?|Hnone] & _)]]; try done;
    try congruence.
  - rewrite Hnone in Hm. by destruct Hm.
  - rewrite Hnone in Hm. by destruct Hm.
Qed.

(** After the callback has written a registration, the PUT that echoes the
    new id with both consents is answered 204. *)
Lemma registration_votes o m s r :
  db (oauth cfg o (Some m) s).2 = <[m := new_registration cfg o m]> (db s) →
  credentials_email r = m →
  email (payload r) = Some m →
  id (payload r) = Some (serviceUrl cfg +:+ "/" +:+ cuid o) →
  accept_terms (payload r) = Some "on" →
  over_18 (payload r) = Some "on" →
  admissible r (oauth cfg o (Some m) s).2 (new_registration cfg o m).
Proof.
  intros Hdb <- He Hi Ha Ho. unfold admissible.
  rewrite Hdb, lookup_insert_eq. by split_and!.
Qed.

(** X13: registration and vote compose: for an e-mail that has no record, the
    callback stores [{ id, email }], and the PUT that echoes that id with
    both consents is answered 204; if its write succeeds the store holds
    the payload with [created] and the next index of its country. *)
Theorem register_then_vote o m s e r :
  m ≠ "" →
  db s !! m = None →
  oauth_put_ok o = true →
  credentials_email r = m →
  email (payload r) = Some m →
  id (payload r) = Some (serviceUrl cfg +:+ "/" +:+ cuid o) →
  accept_terms (payload r) = Some "on" →
  over_18 (payload r) = Some "on" →
  db (oauth cfg o (Some m) s).2 !! m = Some (new_registration cfg o m)
  ∧ (vote e r (oauth cfg o (Some m) s).2).1 = NoContent
  ∧ (put_ok e = true →
       db (vote e r (oauth cfg o (Some m) s).2).2 !! m
       = Some (finalize (payload r) (now e)
                 (count_of (nationality (payload r)) (cache s) + 1))).
Proof.
  intros Hm Hnone Hput Hc He Hi Ha Ho.
  assert (truthy (Some m) = true) as Hp by by apply truthy_iso.
  destruct (oauth_cases o (Some m) s Hp)
    as [(_ & [? Hd] & _)|[(_ & _ & _ & Hdb & Hca & _)|(_ & ? & _)]];
    simpl in *; try congruence.
  pose proof (registration_votes o m s r Hdb Hc He Hi Ha Ho) as Hadm.
  split_and!.
  - by rewrite Hdb, lookup_insert_eq.
  - by rewrite (vote_admissible e r _ _ Hadm).
  - intros Hpe. rewrite (vote_write_resolved e r _ _ Hadm Hpe).
    subst m. rewrite lookup_insert_eq. unfold new_vote.
    by rewrite getIndex_fst, Hca.
Qed.

(** X14: the [catch] block of the callback does not look at the error: when
    [db.get] rejects and the write succeeds, whatever record the e-mail had
    -- a finalized vote included -- is replaced by a new registration, the
    cache and the stats keeping the old vote; the PUT that echoes the new
    id is then answered 204 again. *)
Theorem oauth_read_error_overwrites o m s e r :
  m ≠ "" →
  get_error o = true →
  oauth_put_ok o = true →
  credentials_email r = m →
  email (payload r) = Some m →
  id (payload r) = Some (serviceUrl cfg +:+ "/" +:+ cuid o) →
  accept_terms (payload r) = Some "on" →
  over_18 (payload r) = Some "on" →
  db (oauth cfg o (Some m) s).2 = <[m := new_registration cfg o m]> (db s)
  ∧ ¬ finalized (new_registration cfg o m)
  ∧ cache (oauth cfg o (Some m) s).2 = cache s
  ∧ stats (oauth cfg o (Some m) s).2 = stats s
  ∧ (vote e r (oauth cfg o (Some m) s).2).1 = NoContent.
Proof.
  intros Hm Hg Hput Hc He Hi Ha Ho.
  assert (truthy (Some m) = true) as Hp by by apply truthy_iso.
  destruct (oauth_cases o (Some m) s Hp)
    as [(? & _)|[(_ & _ & _ & Hdb & Hca & Hst & _)|(_ & ? & _)]];
    simpl in *; try congruence.
  pose proof (registration_votes o m s r Hdb Hc He Hi Ha Ho) as Hadm.
  split_and!; try done.
  by rewrite (vote_admissible e r _ _ Hadm).
Qed.

(** X15: the entry point reads back what the PUT handler stored: after an
    admissible request it returns the new record if the write succeeded and
    the registration otherwise, whatever the projection and the queue
    did. *)
Theorem entrypoint_after_vote e r s rec :
  admissible r s rec →
  entrypoint (Some (credentials_email r)) (vote e r s).2
  = EntryInfo {| facebook := "/auth/facebook"; google := "/auth/google";
                 info_vote := Some (if put_ok e then new_vote e r s else rec) |}.
Proof.
  intros Ha. unfold entrypoint.
  rewrite (vote_admissible e r s rec Ha). simpl.
  rewrite db_enqueue_job, db_store_vote.
  destruct (put_ok e).
  - by rewrite lookup_insert_eq.
  - destruct Ha as (_ & Hd & _). unfold indexed. simpl. by rewrite Hd.
Qed.

End RegistrationFacts.

Section ExportFacts.

Variable cfg : ServerConfig.

Local Instance key_le_transitive : Transitive key_le.
Proof. intros a b c. unfold key_le. apply transitivity. Qed.

Local Instance key_le_total : Total key_le.
Proof. intros a b. unfold key_le. apply total, _. Qed.

(** X16: GET /data answers Forbidden to everybody but the configured admin (to
    everybody when no admin is configured), and gives the admin every
    record of the store, finalized or not, once each, in the order of the
    keys. *)
Theorem listData_export c s :
  (Some c ≠ admin cfg → listData cfg c s = DataForbidden)
  ∧ (Some c = admin cfg →
       ∃ kvs, listData cfg c s = DataList kvs.*2
         ∧ kvs ≡ₚ map_to_list (db s)
         ∧ StronglySorted key_le kvs
         ∧ length kvs.*2 = size (db s)
         ∧ ∀ v, v ∈ kvs.*2 ↔ ∃ k, db s !! k = Some v).
Proof.
  unfold listData, strict_eq. split.
  - intros Hne. by rewrite bool_decide_eq_false_2.
  - intros Heq. rewrite bool_decide_eq_true_2 by done. simpl.
    exists (merge_sort key_le (map_to_list (db s))).
    assert (merge_sort key_le (map_to_list (db s)) ≡ₚ map_to_list (db s))
      as Hperm by apply merge_sort_Permutation.
    split_and!.
    + done.
    + done.
    + apply StronglySorted_merge_sort; apply _.
    + by rewrite length_fmap, Hperm, length_map_to_list.
    + intros v. rewrite Hperm, list_elem_of_fmap. split.
      * intros ([k v'] & -> & Hin). exists k. by apply elem_of_map_to_list.
      * intros [k Hk]. exists (k, v). split; [done|].
        by apply elem_of_map_to_list.
Qed.

End ExportFacts.

(** * The queue between the handler and the worker *)

Section QueueFacts.

Context {common : Common}.

Variable cfg : ServerConfig.

Lemma job_ok_mono d d' j :
  (∀ k, is_Some (d !! k) → is_Some (d' !! k)) → job_ok d j → job_ok d' j.
Proof.
  intros Hsub (Ha & Ho & Hc & Hi & k & Hk & Hd).
  unfold job_ok. split_and!; try done. exists k. auto.
Qed.

Lemma step_queue c s :
  Forall (job_ok (db s)) (queue s) →
  Forall (job_ok (db (step cfg c s))) (queue (step cfg c s))
  ∧ queue s `prefix_of` queue (step cfg c s).
Proof.
  intros Hq.
  assert (Forall (job_ok (db (step cfg c s))) (queue s)) as Hq'.
  { eapply Forall_impl; [exact Hq|]. intros j. apply job_ok_mono.
    intros k. apply step_keeps_keys. }
  destruct c as [e r|o p]; simpl in *.
  2: { by rewrite oauth_queue. }
  destruct (vote_cases e r s)
    as [[E _]|[[E _]|[(rec & E & _)|[(rec & E & _)|(rec & Ha)]]]];
    try (by rewrite E).
  assert (queue (vote e r s).2
          = if save_ok e then queue s ++ [new_vote e r s] else queue s) as Hqueue.
  { rewrite (vote_admissible e r s rec Ha). simpl.
    by rewrite queue_enqueue_job, queue_store_vote. }
  rewrite Hqueue. destruct (save_ok e); [|done].
  split; [|by apply prefix_app_r].
  apply Forall_app. split; [done|]. apply Forall_singleton.
  destruct Ha as (He & Hd & _ & _ & Hacc & Hover).
  unfold job_ok, new_vote. simpl. split_and!; try done.
  - exists (getIndex (payload r) (cache s)).1. split; [done|].
    rewrite getIndex_fst. lia.
  - exists (credentials_email r). split; [done|].
    apply elem_of_dom. rewrite vote_dom. apply elem_of_dom. eauto.
Qed.

(** X17: the queue is only appended to, and every job that the handler saves
    carries both consents, a [created] stamp, an index of at least 1 and
    the e-mail of an identity of the store -- over any sequence of PUT
    requests and OAuth callbacks, whatever fails on the way. *)
Theorem queue_jobs_wellformed cs s :
  Forall (job_ok (db s)) (queue s) →
  Forall (job_ok (db (exec cfg cs s))) (queue (exec cfg cs s))
  ∧ queue s `prefix_of` queue (exec cfg cs s).
Proof.
  revert s. induction cs as [|c cs IH]; intros s Hq; simpl; [done|].
  destruct (step_queue c s Hq) as [Hq1 Hpre1].
  destruct (IH _ Hq1) as [Hq2 Hpre2].
  split; [done|]. by etrans.
Qed.

End QueueFacts.

Section MoreWorkerFacts.

Context {common : Common} {emailText : EmailText} {json : Json}.

Variable config : Config.

Lemma log_in_process w data e :
  ConsoleLog e ∈ process config w data
  ↔ (e = MailError ∧ mail_ok w = false)
    ∨ (e = FetchError ∧ fetch_ok w = false ∧ backup_guard config data = true).
Proof.
  unfold process, send_email, backup_vote.
  rewrite elem_of_app, elem_of_cons. split.
  - intros [[Hq|Hq]|Hq].
    + discriminate.
    + destruct (mail_ok w); [by apply elem_of_nil in Hq|].
      apply list_elem_of_singleton in Hq. injection Hq as ->. by left.
    + destruct (backup_guard config data); [|by apply elem_of_nil in Hq].
      apply elem_of_cons in Hq as [Hq|Hq]; [discriminate|].
      destruct (fetch_ok w); [by apply elem_of_nil in Hq|].
      apply list_elem_of_singleton in Hq. injection Hq as ->. by right.
  - intros [[-> ->]|(-> & -> & ->)].
    + left. right. apply list_elem_of_here.
    + right. apply list_elem_of_further, list_elem_of_here.
Qed.

(** X18: the worker starts every job with the mail, makes at most four effects,
    and writes a log line exactly for each remote call that failed. *)
Theorem process_log w data :
  (∃ rest, process config w data = SendMail (generateMail config data) :: rest)
  ∧ length (process config w data) ≤ 4
  ∧ (∀ e, ConsoleLog e ∈ process config w data
          ↔ (e = MailError ∧ mail_ok w = false)
            ∨ (e = FetchError ∧ fetch_ok w = false
               ∧ backup_guard config data = true)).
Proof.
  split_and!.
  - unfold process, send_email. simpl. eauto.
  - unfold process, send_email, backup_vote.
    destruct (mail_ok w), (backup_guard config data), (fetch_ok w); simpl; lia.
  - intros e. apply log_in_process.
Qed.

(** X19: the mail for a vote goes to the address of the session that cast it.
    For the record that the handler builds from a payload without a truthy
    [confirmed], it is the "Please confirm your vote" mail and the worker
    attempts nothing else; with a truthy [confirmed] it is the "registered
    successfully" mail. *)
Theorem queued_vote_mail w e r s rec :
  admissible r s rec →
  mail_to (generateMail config (new_vote e r s)) = Some (credentials_email r)
  ∧ (truthy (confirmed (payload r)) = false →
       attempts (process config w (new_vote e r s))
       = [SendMail (generateMail config (new_vote e r s))]
       ∧ mail_subject (generateMail config (new_vote e r s))
         = "Please confirm your vote"
       ∧ mail_text (generateMail config (new_vote e r s))
         = confirmEmailText (new_vote e r s))
  ∧ (truthy (confirmed (payload r)) = true →
       mail_subject (generateMail config (new_vote e r s))
       = "Your vote was registered successfully"
       ∧ mail_text (generateMail config (new_vote e r s))
         = doneEmailText (new_vote e r s)).
Proof.
  intros (He & _).
  change (confirmed (payload r)) with (confirmed (new_vote e r s)).
  split_and!.
  - unfold generateMail.
    by destruct (truthy (confirmed (new_vote e r s))).
  - intros Hc. rewrite attempts_process.
    unfold backup_guard, generateMail. rewrite Hc, !andb_false_r. done.
  - intros Hc. unfold generateMail. by rewrite Hc.
Qed.

End MoreWorkerFacts.

(** * Votes for different countries *)

Section Commutation.

Context {common : Common}.

Lemma country_eta (c : Country.t) :
  c = {| Country.code := Country.code c; Country.vote := Country.vote c |}.
Proof. by destruct c. Qed.

Lemma find_getIndex n v (l : list Country.t) :
  find_country n (getIndex v l).2
  = if decide (n = nationality v)
    then Some {| Country.code := n; Country.vote := votes_of n l |}
    else find_country n l.
Proof.
  unfold getIndex, votes_of. case_decide as Hn.
  - subst n. destruct (find_country (nationality v) l) as [c|] eqn:Hf; simpl.
    + rewrite Hf. apply find_country_Some in Hf as [_ Hc].
      rewrite <- Hc. f_equal. apply country_eta.
    + rewrite find_country_app, Hf. unfold find_country. simpl.
      unfold strict_eq. by rewrite bool_decide_eq_true_2.
  - destruct (find_country (nationality v) l) eqn:Hf; simpl; [done|].
    rewrite find_country_app. destruct (find_country n l); [done|].
    unfold find_country. simpl. unfold strict_eq.
    by rewrite bool_decide_eq_false_2 by congruence.
Qed.

(** The cache after an admissible request, country by country. *)
Lemma vote_find e r s rec n :
  admissible r s rec →
  NoDup (Country.code <$> cache s) →
  find_country n (cache (vote e r s).2)
  = if decide (n = nationality (payload r))
    then Some {| Country.code := n;
                 Country.vote := added e r s ++ votes_of n (cache s) |}
    else find_country n (cache s).
Proof.
  intros Ha Hnd. rewrite (vote_admissible e r s rec Ha). simpl.
  rewrite cache_enqueue_job. unfold added, store_vote.
  destruct (put_ok e); [|apply find_getIndex].
  unfold update_cache. simpl.
  destruct (extractPublicPart (new_vote e r s)) as [p|]; [|apply find_getIndex].
  destruct (find_country_getIndex (payload r) (cache s)) as (c & Hc & _).
  destruct (prepend_vote_Some _ p _ c Hc)
    as (pre & Hpre & Hcodes & Hfind & Hother & _).
  change (nationality (new_vote e r s)) with (nationality (payload r)).
  rewrite Hpre. simpl.
  assert (NoDup (Country.code <$> pre)) as Hndp.
  { rewrite Hcodes. by apply getIndex_NoDup. }
  rewrite <- (find_country_perm n pre) by (done || by rewrite array_sort_perm).
  case_decide as Hn.
  - subst n. rewrite Hfind. rewrite find_getIndex in Hc.
    rewrite decide_True in Hc by done. by injection Hc as <-.
  - rewrite (Hother n Hn), find_getIndex. by rewrite decide_False.
Qed.

Lemma vote_new_vote_other e r s rec e' r' :
  admissible r s rec →
  NoDup (Country.code <$> cache s) →
  nationality (payload r') ≠ nationality (payload r) →
  new_vote e' r' (vote e r s).2 = new_vote e' r' s.
Proof.
  intros Ha Hnd Hne. unfold new_vote. f_equal.
  rewrite !getIndex_fst. unfold count_of.
  rewrite (vote_find e r s rec _ Ha Hnd). by rewrite decide_False.
Qed.

Lemma vote_admissible_other e r s rec r' rec' :
  admissible r s rec →
  admissible r' s rec' →
  credentials_email r' ≠ credentials_email r →
  admissible r' (vote e r s).2 rec'.
Proof.
  intros Ha (He & Hd & Hrest) Hne. unfold admissible.
  split; [done|]. split; [|done].
  rewrite (vote_admissible e r s rec Ha). simpl.
  rewrite db_enqueue_job, db_store_vote.
  destruct (put_ok e); [|done]. by rewrite lookup_insert_ne.
Qed.

Lemma vote_db e r s rec :
  admissible r s rec →
  db (vote e r s).2
  = if put_ok e then <[credentials_email r := new_vote e r s]> (db s) else db s.
Proof.
  intros Ha. rewrite (vote_admissible e r s rec Ha). simpl.
  by rewrite db_enqueue_job, db_store_vote.
Qed.

(** X20: two admissible requests of different identities for different countries
    can be handled in either order: both are answered 204, each record gets
    the same index, and the store and the vote list of every country come
    out the same, whatever fails on the way.  (The order of the countries
    in the cache may differ.) *)
Theorem votes_commute e1 r1 e2 r2 s rec1 rec2 :
  NoDup (Country.code <$> cache s) →
  admissible r1 s rec1 →
  admissible r2 s rec2 →
  credentials_email r1 ≠ credentials_email r2 →
  nationality (payload r1) ≠ nationality (payload r2) →
  (vote e2 r2 (vote e1 r1 s).2).1 = NoContent
  ∧ (vote e1 r1 (vote e2 r2 s).2).1 = NoContent
  ∧ new_vote e2 r2 (vote e1 r1 s).2 = new_vote e2 r2 s
  ∧ new_vote e1 r1 (vote e2 r2 s).2 = new_vote e1 r1 s
  ∧ db (run [(e1, r1); (e2, r2)] s) = db (run [(e2, r2); (e1, r1)] s)
  ∧ ∀ n, find_country n (cache (run [(e1, r1); (e2, r2)] s))
         = find_country n (cache (run [(e2, r2); (e1, r1)] s)).
Proof.
  intros Hnd Ha1 Ha2 Hcred Hnat. simpl.
  pose proof (vote_admissible_other e1 r1 s rec1 r2 rec2 Ha1 Ha2
                (not_eq_sym Hcred)) as Ha21.
  pose proof (vote_admissible_other e2 r2 s rec2 r1 rec1 Ha2 Ha1 Hcred) as Ha12.
  pose proof (vote_new_vote_other e1 r1 s rec1 e2 r2 Ha1 Hnd (not_eq_sym Hnat))
    as Hv2.
  pose proof (vote_new_vote_other e2 r2 s rec2 e1 r1 Ha2 Hnd Hnat) as Hv1.
  destruct (vote_cache_grows e1 r1 s Hnd) as [Hnd1 _].
  destruct (vote_cache_grows e2 r2 s Hnd) as [Hnd2 _].
  split_and!; try done.
  - by rewrite (vote_admissible e2 r2 _ rec2 Ha21).
  - by rewrite (vote_admissible e1 r1 _ rec1 Ha12).
  - rewrite (vote_db e2 r2 _ rec2 Ha21), (vote_db e1 r1 _ rec1 Ha12).
    rewrite (vote_db e1 r1 s rec1 Ha1), (vote_db e2 r2 s rec2 Ha2).
    rewrite Hv1, Hv2.
    destruct (put_ok e1), (put_ok e2); try done.
    by apply insert_insert_ne.
  - intros n.
    rewrite (vote_find e2 r2 _ rec2 n Ha21 Hnd1).
    rewrite (vote_find e1 r1 _ rec1 n Ha12 Hnd2).
    rewrite (vote_find e1 r1 s rec1 n Ha1 Hnd).
    rewrite (vote_find e2 r2 s rec2 n Ha2 Hnd).
    unfold added, votes_of. rewrite Hv1, Hv2.
    rewrite (vote_find e1 r1 s rec1 _ Ha1 Hnd).
    rewrite (vote_find e2 r2 s rec2 _ Ha2 Hnd).
    repeat case_decide; try done; congruence.
Qed.

End Commutation.

(** * What the failure paths leave behind *)

Section FailurePaths.

Context {common : Common}.

(** X21: the index written to the store is the length of the country's list
    right after the vote, and the new projection is at its head. *)
Theorem vote_index_is_count e r s rec p :
  admissible r s rec →
  NoDup (Country.code <$> cache s) →
  put_ok e = true →
  extractPublicPart (new_vote e r s) = Some p →
  find_country (nationality (payload r)) (cache (vote e r s).2)
  = Some {| Country.code := nationality (payload r);
            Country.vote := p :: votes_of (nationality (payload r)) (cache s) |}
  ∧ index (new_vote e r s)
    = Some (length (p :: votes_of (nationality (payload r)) (cache s)))
  ∧ db (vote e r s).2 !! credentials_email r = Some (new_vote e r s).
Proof.
  intros Ha Hnd Hp Hx. split_and!.
  - rewrite (vote_find e r s rec _ Ha Hnd), decide_True by done.
    unfold added. by rewrite Hp, Hx.
  - unfold new_vote. simpl. rewrite getIndex_fst. unfold count_of, votes_of.
    f_equal. destruct (find_country (nationality (payload r)) (cache s));
      simpl; lia.
  - by rewrite (vote_db e r s rec Ha), Hp, lookup_insert_eq.
Qed.

Lemma getIndex_fst_again v v' (l : list Country.t) :
  nationality v' = nationality v →
  (getIndex v' (getIndex v l).2).1 = (getIndex v l).1.
Proof.
  intros Hn. rewrite !getIndex_fst, Hn. by rewrite count_of_getIndex.
Qed.

(** X22: a vote whose write failed was answered 204 but is not in the store: the
    same request is admissible again and is given the same index; when both
    saves succeed the queue then holds a job for each attempt. *)
Theorem vote_retry_after_write_failure e e' r s rec :
  admissible r s rec →
  put_ok e = false →
  admissible r (vote e r s).2 rec
  ∧ index (new_vote e' r (vote e r s).2) = index (new_vote e r s)
  ∧ (save_ok e = true → save_ok e' = true →
       queue (vote e' r (vote e r s).2).2
       = queue s ++ [new_vote e r s; new_vote e' r (vote e r s).2]).
Proof.
  intros Ha Hp.
  destruct (vote_write_rejected e r s rec Ha Hp) as (Hdb & _ & Hca & _).
  assert (admissible r (vote e r s).2 rec) as Ha'.
  { destruct Ha as (He & Hd & Hrest). unfold admissible. by rewrite Hdb. }
  split_and!.
  - done.
  - unfold new_vote. simpl. f_equal. rewrite Hca.
    by apply getIndex_fst_again.
  - intros Hs Hs'.
    rewrite (vote_admissible e' r _ rec Ha'). simpl.
    rewrite queue_enqueue_job, queue_store_vote, Hs'.
    rewrite (vote_admissible e r s rec Ha). simpl.
    rewrite queue_enqueue_job, queue_store_vote, Hs.
    by rewrite <- app_assoc.
Qed.

(** X23: when [extractPublicPart] throws after the write, the record is in the
    store but not in the cache, and the next vote for the same country is
    given the same index. *)
Theorem projection_failure_repeats_index e1 r1 e2 r2 s rec1 rec2 :
  admissible r1 s rec1 →
  admissible r2 s rec2 →
  credentials_email r1 ≠ credentials_email r2 →
  nationality (payload r2) = nationality (payload r1) →
  put_ok e1 = true →
  extractPublicPart (new_vote e1 r1 s) = None →
  db (vote e1 r1 s).2 !! credentials_email r1 = Some (new_vote e1 r1 s)
  ∧ cache (vote e1 r1 s).2 = (getIndex (payload r1) (cache s)).2
  ∧ admissible r2 (vote e1 r1 s).2 rec2
  ∧ index (new_vote e2 r2 (vote e1 r1 s).2) = index (new_vote e1 r1 s).
Proof.
  intros Ha1 Ha2 Hcred Hnat Hp Hx.
  assert (cache (vote e1 r1 s).2 = (getIndex (payload r1) (cache s)).2) as Hca.
  { rewrite (vote_admissible e1 r1 s rec1 Ha1). simpl.
    rewrite cache_enqueue_job. unfold store_vote, update_cache.
    by rewrite Hp, Hx. }
  split_and!.
  - by rewrite (vote_db e1 r1 s rec1 Ha1), Hp, lookup_insert_eq.
  - done.
  - by apply (vote_admissible_other e1 r1 s rec1 r2 rec2 Ha1 Ha2),
      not_eq_sym.
  - unfold new_vote. simpl. f_equal. rewrite Hca.
    by apply getIndex_fst_again.
Qed.

End FailurePaths.

(** * The further theorems at work on sample data *)

Section MoreExamples.

Local Existing Instance sample_common.
Local Existing Instance sample_text.
Local Existing Instance sample_json.

Lemma second_request_admissible :
  admissible (put_request "c2" "b@x.org" "B") (start six_registered)
    (registration "c2" "b@x.org").
Proof. repeat split; reflexivity. Defined.

Lemma first_request_A_admissible :
  admissible (put_request "c1" "a@x.org" "A") (start six_registered)
    (registration "c1" "a@x.org").
Proof. repeat split; reflexivity. Defined.

Lemma second_request_FR_admissible :
  admissible (put_request "c2" "b@x.org" "FR") (start six_registered)
    (registration "c2" "b@x.org").
Proof. repeat split; reflexivity. Defined.

(** Same store, another cache, another clock, a failing write and a
    throwing projection: the same answer. *)
Lemma vote_answer_by_store_witness :
  (vote (all_ok "2020-03-01T10:00:00.000Z") (put_request "c1" "a@x.org" "FR")
     (start six_registered)).1
  = (vote (common := broken_common) (put_fails "2020-03-01T12:00:00.000Z")
       (put_request "c1" "a@x.org" "FR")
       (vote (put_fails "2020-03-01T10:00:00.000Z")
          (put_request "c2" "b@x.org" "B") (start six_registered)).2).1.
Proof.
  apply (vote_answer_by_store (common := sample_common) broken_common).
  reflexivity.
Defined.

(** The projection throws and the queue is down: two log lines. *)
Lemma vote_log_witness :
  log (vote (common := broken_common) (queue_down "2020-03-01T10:00:00.000Z")
         (put_request "c1" "a@x.org" "FR") (start six_registered)).2
  = [ProjectionError; QueueError].
Proof.
  exact (vote_log (common := broken_common)
           (queue_down "2020-03-01T10:00:00.000Z")
           (put_request "c1" "a@x.org" "FR") (start six_registered)
           (registration "c1" "a@x.org") first_request_admissible).
Defined.

(** FR was pushed by a failed write and has no vote: the stats list B. *)
Lemma stats_list_voted_countries_witness :
  codes (cache (run failure_then_vote (start six_registered)))
  = [Some "B"; Some "FR"]
  ∧ Stats.code <$> filter (λ ent, Stats.count ent ≠ 0)
      (Stats.country (listStats (run failure_then_vote (start six_registered))))
    = [Some "B"].
Proof.
  split; [reflexivity|].
  rewrite (stats_list_voted_countries failure_then_vote
             (start six_registered) eq_refl).
  reflexivity.
Defined.

Lemma run_cache_grows_witness :
  NoDup (Country.code <$> cache (run four_votes one_vote_FR))
  ∧ 1 ≤ count_of (Some "FR") (cache (run four_votes one_vote_FR)).
Proof.
  assert (NoDup (Country.code <$> cache one_vote_FR)) as Hnd.
  { apply (bool_decide_unpack _). vm_compute. exact I. }
  destruct (run_cache_grows four_votes one_vote_FR Hnd) as [Hnd' Hle].
  split; [exact Hnd'|]. exact (Hle (Some "FR")).
Defined.

Lemma first_job_finalized : finalized first_job.
Proof. reflexivity. Defined.

Lemma finalized_vote_stands_witness :
  db (exec sample_server login_and_resubmit one_vote_FR) !! "a@x.org"
  = Some first_job
  ∧ (vote (all_ok "2020-03-01T12:00:00.000Z") (put_request "c1" "a@x.org" "FR")
       (exec sample_server login_and_resubmit one_vote_FR)).1 = Conflict.
Proof.
  assert (Forall no_read_error login_and_resubmit) as Hcs
    by (repeat constructor).
  destruct (finalized_vote_stands sample_server login_and_resubmit one_vote_FR
              "a@x.org" first_job eq_refl first_job_finalized Hcs)
    as [Hdb Hans].
  split; [exact Hdb|].
  destruct (Hans (all_ok "2020-03-01T12:00:00.000Z")
              (put_request "c1" "a@x.org" "FR") eq_refl) as [H|H];
    [discriminate H|exact H].
Defined.

Lemma six_registered_keyed : keyed six_registered.
Proof.
  change (map_Forall (λ k v, email v = Some k) six_registered).
  apply (bool_decide_unpack _). vm_compute. exact I.
Defined.

Lemma exec_keyed_witness :
  keyed (db (exec sample_server login_and_votes (start six_registered))).
Proof.
  exact (exec_keyed sample_server login_and_votes (start six_registered)
           six_registered_keyed).
Defined.

Lemma session_has_record_witness :
  (oauth sample_server (oauth_ok "ck1") (Some "g@x.org") (start six_registered)).1
  = Redirect "https://app.x.org/voters" (Some "g@x.org")
  ∧ is_Some (db (exec sample_server login_and_resubmit
                   (oauth sample_server (oauth_ok "ck1") (Some "g@x.org")
                      (start six_registered)).2) !! "g@x.org").
Proof.
  split; [reflexivity|].
  destruct (session_has_record sample_server (oauth_ok "ck1") (Some "g@x.org")
              (start six_registered) "https://app.x.org/voters" "g@x.org"
              login_and_resubmit eq_refl) as [Hrec _].
  exact Hrec.
Defined.

Lemma oauth_once_witness :
  db (oauth sample_server (oauth_ok "ck9") (Some "g@x.org")
        (oauth sample_server (oauth_ok "ck1") (Some "g@x.org")
           (start six_registered)).2).2 !! "g@x.org"
  = Some (new_registration sample_server (oauth_ok "ck1") "g@x.org").
Proof.
  rewrite (oauth_once sample_server (oauth_ok "ck1") (oauth_ok "ck9")
             (Some "g@x.org") (start six_registered)
             "https://app.x.org/voters" (Some "g@x.org") eq_refl eq_refl).
  reflexivity.
Defined.

Lemma register_then_vote_witness :
  db (start six_registered) !! "g@x.org" = None
  ∧ (vote (all_ok "2020-03-01T10:00:00.000Z") new_voter_request
       (oauth sample_server (oauth_ok "ck1") (Some "g@x.org")
          (start six_registered)).2).1 = NoContent.
Proof.
  split; [reflexivity|].
  assert ("g@x.org" ≠ "") as Hne by discriminate.
  destruct (register_then_vote sample_server (oauth_ok "ck1") "g@x.org"
              (start six_registered) (all_ok "2020-03-01T10:00:00.000Z")
              new_voter_request Hne eq_refl eq_refl eq_refl eq_refl eq_refl
              eq_refl eq_refl) as (_ & Hans & _).
  exact Hans.
Defined.

(** The voter of [one_vote_FR] logs in while [db.get] fails: the vote is
    gone from the store. *)
Lemma oauth_read_error_overwrites_witness :
  db one_vote_FR !! "a@x.org" = Some first_job
  ∧ db (oauth sample_server (oauth_read_fails "ck1") (Some "a@x.org")
          one_vote_FR).2 !! "a@x.org"
    = Some (new_registration sample_server (oauth_read_fails "ck1") "a@x.org").
Proof.
  split; [reflexivity|].
  assert ("a@x.org" ≠ "") as Hne by discriminate.
  destruct (oauth_read_error_overwrites sample_server (oauth_read_fails "ck1")
              "a@x.org" one_vote_FR (all_ok "2020-03-01T12:00:00.000Z")
              (put_request "https://vote.x.org/ck1" "a@x.org" "FR")
              Hne eq_refl eq_refl eq_refl eq_refl eq_refl eq_refl eq_refl)
    as (Hdb & _).
  rewrite Hdb. apply lookup_insert_eq.
Defined.

Lemma entrypoint_after_vote_witness :
  entrypoint (Some "a@x.org") one_vote_FR
  = EntryInfo {| facebook := "/auth/facebook"; google := "/auth/google";
                 info_vote := Some first_job |}.
Proof.
  exact (entrypoint_after_vote (all_ok "2020-03-01T10:00:00.000Z")
           (put_request "c1" "a@x.org" "FR") (start six_registered)
           (registration "c1" "a@x.org") first_request_admissible).
Defined.

Lemma listData_export_witness :
  ∃ kvs : list (string * Vote),
    listData sample_server "admin@x.org" one_vote_FR = DataList kvs.*2
    ∧ length kvs.*2 = 6.
Proof.
  destruct (listData_export sample_server "admin@x.org" one_vote_FR)
    as [_ Hadmin].
  destruct (Hadmin eq_refl) as (kvs & Hl & _ & _ & Hlen & _).
  exists kvs. split; [exact Hl|]. rewrite Hlen. reflexivity.
Defined.

Lemma queue_jobs_wellformed_witness :
  Forall (job_ok (db (exec sample_server login_and_votes (start six_registered))))
    (queue (exec sample_server login_and_votes (start six_registered)))
  ∧ length (queue (exec sample_server login_and_votes (start six_registered))) = 2.
Proof.
  destruct (queue_jobs_wellformed sample_server login_and_votes
              (start six_registered) (Forall_nil_2 _)) as [Hq _].
  split; [exact Hq|reflexivity].
Defined.

Lemma queued_vote_mail_witness :
  mail_to (generateMail sample_config first_job) = Some "a@x.org"
  ∧ mail_subject (generateMail sample_config first_job)
    = "Please confirm your vote".
Proof.
  destruct (queued_vote_mail sample_config
              {| mail_ok := true; fetch_ok := true |}
              (all_ok "2020-03-01T10:00:00.000Z")
              (put_request "c1" "a@x.org" "FR") (start six_registered)
              (registration "c1" "a@x.org") first_request_admissible)
    as (Hto & Hun & _).
  split; [exact Hto|]. destruct (Hun eq_refl) as (_ & Hsub & _). exact Hsub.
Defined.

Lemma votes_commute_witness :
  db (run [(all_ok "2020-03-01T10:00:00.000Z", put_request "c1" "a@x.org" "A");
           (put_fails "2020-03-01T10:05:00.000Z", put_request "c2" "b@x.org" "B")]
        (start six_registered))
  = db (run [(put_fails "2020-03-01T10:05:00.000Z", put_request "c2" "b@x.org" "B");
             (all_ok "2020-03-01T10:00:00.000Z", put_request "c1" "a@x.org" "A")]
          (start six_registered)).
Proof.
  assert (NoDup (Country.code <$> cache (start six_registered))) as Hnd
    by constructor.
  assert ("a@x.org" ≠ "b@x.org") as Hcred by discriminate.
  assert (Some "A" ≠ Some "B") as Hnat by discriminate.
  destruct (votes_commute (all_ok "2020-03-01T10:00:00.000Z")
              (put_request "c1" "a@x.org" "A")
              (put_fails "2020-03-01T10:05:00.000Z")
              (put_request "c2" "b@x.org" "B")
              (start six_registered) (registration "c1" "a@x.org")
              (registration "c2" "b@x.org") Hnd first_request_A_admissible
              second_request_admissible Hcred Hnat)
    as (_ & _ & _ & _ & Hdb & _).
  exact Hdb.
Defined.

Lemma vote_index_is_count_witness :
  index (new_vote (all_ok "2020-03-01T10:00:00.000Z")
           (put_request "c1" "a@x.org" "FR") (start six_registered))
  = Some 1
  ∧ count_of (Some "FR") (cache one_vote_FR) = 1.
Proof.
  assert (NoDup (Country.code <$> cache (start six_registered))) as Hnd
    by constructor.
  pose (v := new_vote (all_ok "2020-03-01T10:00:00.000Z")
               (put_request "c1" "a@x.org" "FR") (start six_registered)).
  assert (extractPublicPart v = Some (default v (sample_public v))) as Hx
    by reflexivity.
  destruct (vote_index_is_count (all_ok "2020-03-01T10:00:00.000Z")
              (put_request "c1" "a@x.org" "FR") (start six_registered)
              (registration "c1" "a@x.org") (default v (sample_public v))
              first_request_admissible Hnd eq_refl Hx)
    as (Hfind & Hidx & _).
  split; [exact Hidx|reflexivity].
Defined.

Lemma vote_retry_after_write_failure_witness :
  index (new_vote (all_ok "2020-03-01T10:30:00.000Z")
           (put_request "c1" "a@x.org" "FR")
           (vote (put_fails "2020-03-01T10:00:00.000Z")
              (put_request "c1" "a@x.org" "FR") (start six_registered)).2)
  = Some 1.
Proof.
  destruct (vote_retry_after_write_failure
              (put_fails "2020-03-01T10:00:00.000Z")
              (all_ok "2020-03-01T10:30:00.000Z")
              (put_request "c1" "a@x.org" "FR") (start six_registered)
              (registration "c1" "a@x.org") first_request_admissible eq_refl)
    as (_ & Hidx & _).
  rewrite Hidx. reflexivity.
Defined.

Lemma projection_failure_repeats_index_witness :
  index (new_vote (all_ok "2020-03-01T10:05:00.000Z")
           (put_request "c2" "b@x.org" "FR")
           (vote (common := broken_common) (all_ok "2020-03-01T10:00:00.000Z")
              (put_request "c1" "a@x.org" "FR") (start six_registered)).2)
  = Some 1
  ∧ db (vote (common := broken_common) (all_ok "2020-03-01T10:00:00.000Z")
          (put_request "c1" "a@x.org" "FR") (start six_registered)).2
       !! "a@x.org"
    = Some first_job.
Proof.
  assert ("a@x.org" ≠ "b@x.org") as Hcred by discriminate.
  destruct (projection_failure_repeats_index (common := broken_common)
              (all_ok "2020-03-01T10:00:00.000Z")
              (put_request "c1" "a@x.org" "FR")
              (all_ok "2020-03-01T10:05:00.000Z")
              (put_request "c2" "b@x.org" "FR")
              (start six_registered) (registration "c1" "a@x.org")
              (registration "c2" "b@x.org") first_request_admissible
              second_request_FR_admissible Hcred eq_refl eq_refl eq_refl)
    as (Hdb & _ & _ & Hidx).
  split; [rewrite Hidx; reflexivity|exact Hdb].
Defined.

End MoreExamples.
